(** * The navigation sidebar of the component gallery

    A shallow embedding of the [Sidebar] component of [src/app/page.tsx]
    (lines 1133-1271): its two pieces of React state, the [toggleExpanded]
    updater, the [filteredItems] computation, the row click handler, the
    recursive row renderer and the final markup, followed by the properties
    the specification states about them.

    The development then goes on to the page that hosts the sidebar (the
    [App] component of the second source file) and to other components of
    the gallery that carry state or arithmetic: [Accordion], [Tabs],
    [Pagination], [Carousel], [Rating], [Masonry] and [Tree].

    JavaScript strings are modelled by [string]; [toLowerCase] is the
    lower-casing of the letters [A]-[Z], on which the built-in agrees for
    every ASCII input.  An optional field ([icon?], [children?], ...) is an
    [option]. *)

From Stdlib Require Import List String Ascii Bool Arith NArith Lia.
From Stdlib Require Import DecimalString DecimalNat Permutation ZArith.
Import ListNotations.
Open Scope string_scope.
Open Scope list_scope.

(** ** JavaScript built-ins used by the component *)

Module Js.

(** [String.prototype.toLowerCase], one character.  The built-in follows
    the Unicode case mapping; on the ASCII characters it is this function,
    and the properties that depend on lower-casing are stated for ASCII
    strings ([isAscii] below). *)
Definition lower_char (c : ascii) : ascii :=
  let n := N_of_ascii c in
  if ((65 <=? n) && (n <=? 90))%N then ascii_of_N (n + 32) else c.

(** [String.prototype.toLowerCase]. *)
Fixpoint toLowerCase (s : string) : string :=
  match s with
  | EmptyString => EmptyString
  | String c s' => String (lower_char c) (toLowerCase s')
  end.

(** [s.includes(q)]: [q] occurs in [s] as a contiguous run. *)
Fixpoint includes (s q : string) : bool :=
  if String.prefix q s then true
  else match s with
       | EmptyString => false
       | String _ s' => includes s' q
       end.

(** [xs.includes(x)] on an array of strings. *)
Definition array_includes (xs : list string) (x : string) : bool :=
  existsb (String.eqb x) xs.

(** Truthiness of a string: every string but the empty one. *)
Definition truthy (s : string) : bool :=
  match s with EmptyString => false | String _ _ => true end.

(** [set.add(x)] on a [Set] kept in insertion order. *)
Definition set_add (acc : list string) (x : string) : list string :=
  if array_includes acc x then acc else acc ++ [x].

(** [[...new Set(xs)]]: the distinct elements in first-seen order. *)
Definition spread_set (xs : list string) : list string :=
  fold_left set_add xs [].

(** [String(n)] for a non-negative integer. *)
Definition number_to_string (n : nat) : string :=
  NilEmpty.string_of_uint (Nat.to_uint n).

(** The number of elements of [Array.from({ length: n }, f)]: none for a
    negative length, and a [RangeError] ([None]) for a length of 2^32 or
    more. *)
Definition array_from_length (n : Z) : option nat :=
  if (n <? 4294967296)%Z then Some (Z.to_nat n) else None.

(** The one-character string holding a double quote. *)
Definition dquote : string := String (ascii_of_nat 34) EmptyString.

End Js.

(** ** Data model *)

(** [React.ReactNode] used as an icon: an opaque handle. *)
Definition Icon := nat.

(** A caller-supplied zero-argument callback, named by a handle; invoking
    it is recorded in the trace a handler returns. *)
Definition Callback := nat.

(** [badge?: string | number]. *)
Inductive Badge : Type :=
| BadgeText (s : string)
| BadgeCount (n : nat).

(** [interface SidebarItem].  The induction principle that follows the
    nesting through [children] is [SidebarItem_nested_ind] below. *)
#[local] Unset Elimination Schemes.
Inductive SidebarItem : Type := mkSidebarItem {
  id : string;
  label : string;
  icon : option Icon;
  badge : option Badge;
  active : option bool;
  onClick : option Callback;
  children : option (list SidebarItem);
  category : option string
}.
#[local] Set Elimination Schemes.

(** The two [useState] cells of the component. *)
Record SidebarState : Type := mkState {
  expandedItems : list string;
  searchQuery : string
}.

(** [useState<string[]>([])] and [useState('')]. *)
Definition initialState : SidebarState :=
  {| expandedItems := []; searchQuery := "" |}.

(** ** State updates *)

(** The updater passed to [setExpandedItems] by [toggleExpanded]. *)
Definition toggle (id0 : string) (prev : list string) : list string :=
  if Js.array_includes prev id0
  then filter (fun item => negb (String.eqb item id0)) prev
  else prev ++ [id0].

(** [toggleExpanded(id)]. *)
Definition toggleExpanded (id0 : string) (st : SidebarState) : SidebarState :=
  {| expandedItems := toggle id0 (expandedItems st);
     searchQuery := searchQuery st |}.

(** [setSearchQuery(text)], the [onChange] of the search box. *)
Definition setSearchQuery (text : string) (st : SidebarState) : SidebarState :=
  {| expandedItems := expandedItems st;
     searchQuery := text |}.

(** ** Filtering *)

(** The predicate of [filteredItems]:
    [label.toLowerCase().includes(q.toLowerCase()) ||
     category?.toLowerCase().includes(q.toLowerCase())]. *)
Definition matchesQuery (q : string) (item : SidebarItem) : bool :=
  Js.includes (Js.toLowerCase (label item)) (Js.toLowerCase q)
  || match category item with
     | Some c => Js.includes (Js.toLowerCase c) (Js.toLowerCase q)
     | None => false
     end.

(** [filteredItems]. *)
Definition filteredItems (items : list SidebarItem) (q : string)
  : list SidebarItem :=
  filter (matchesQuery q) items.

(** ** Clicking a row *)

(** [item.onClick?.()]: the callbacks invoked. *)
Definition invoke (cb : option Callback) : list Callback :=
  match cb with
  | Some h => [h]
  | None => []
  end.

(** The [onClick] of a row's button: the next state and the trace of
    caller callbacks invoked. *)
Definition handleClick (item : SidebarItem) (st : SidebarState)
  : SidebarState * list Callback :=
  match children item with
  | Some _ => (toggleExpanded (id item) st, [])
  | None => (st, invoke (onClick item))
  end.

(** ** Rendering *)

(** What [{item.badge && <span>...</span>}] puts in the row: nothing for an
    absent or empty badge, the bare number for the falsy count [0], the
    pill otherwise. *)
Inductive BadgeSlot : Type :=
| NoBadge
| BareNumber (n : nat)
| BadgePill (b : Badge).

Definition renderBadge (b : option Badge) : BadgeSlot :=
  match b with
  | None => NoBadge
  | Some (BadgeText s) => if Js.truthy s then BadgePill (BadgeText s) else NoBadge
  | Some (BadgeCount n) =>
      match n with
      | O => BareNumber 0
      | S _ => BadgePill (BadgeCount n)
      end
  end.

(** The fragment of a row shown only when the panel is not collapsed:
    the label, the badge and, for an item with [children], the arrow
    (rotated when the item is expanded). *)
Record RowText : Type := mkRowText {
  text_label : string;
  text_badge : BadgeSlot;
  text_arrow : option bool
}.

(** The markup [renderSidebarItem] returns for one item: the keyed [div],
    its [button] (whose click handler closes over [row_item]) and, when the
    item is an expanded group, the [div] of its children's rows. *)
#[local] Unset Elimination Schemes.
Inductive Row : Type := mkRow {
  key : string;
  row_item : SidebarItem;
  highlighted : bool;
  paddingLeft : nat;
  row_icon : option Icon;
  row_text : option RowText;
  nested : option (list Row)
}.
#[local] Set Elimination Schemes.

(** [renderSidebarItem(item, level)]. *)
Fixpoint renderSidebarItem (collapsed : bool) (expanded : list string)
  (level : nat) (item : SidebarItem) {struct item} : Row :=
  match item with
  | mkSidebarItem i l ic b a oc ch cat =>
      {| key := i;
         row_item := item;
         highlighted := match a with Some true => true | _ => false end;
         paddingLeft := level * 12 + 12;
         row_icon := ic;
         row_text :=
           if negb collapsed
           then Some {| text_label := l;
                        text_badge := renderBadge b;
                        text_arrow :=
                          match ch with
                          | Some _ => Some (Js.array_includes expanded i)
                          | None => None
                          end |}
           else None;
         nested :=
           if negb collapsed
           then match ch with
                | Some cs =>
                    if Js.array_includes expanded i
                    then Some (map (renderSidebarItem collapsed expanded (S level)) cs)
                    else None
                | None => None
                end
           else None |}
  end.

(** [items.map(item => item.category).filter(Boolean)]: the categories of
    the items passed in, in order, without the undefined and the empty
    ones (both falsy). *)
Definition definedCategories (items : list SidebarItem) : list string :=
  flat_map (fun item => match category item with
                        | Some c => if Js.truthy c then [c] else []
                        | None => []
                        end) items.

(** [categories]: the distinct such categories, in first-seen order. *)
Definition categories (items : list SidebarItem) : list string :=
  Js.spread_set (definedCategories items).

(** [item.category === category]. *)
Definition inCategory (c : string) (item : SidebarItem) : bool :=
  match category item with
  | Some c' => String.eqb c' c
  | None => false
  end.

(** One [div] of the category loop: the heading and the rows under it. *)
Record Group : Type := mkGroup {
  heading : string;
  rows : list Row
}.

(** The text of the results line,
    [{filteredItems.length} results for "{searchQuery}"]. *)
Definition resultsText (n : nat) (q : string) : string :=
  Js.number_to_string n ++ " results for " ++ Js.dquote ++ q ++ Js.dquote.

(** The glyph on the display-mode button. *)
Inductive Glyph : Type := ArrowRight | ArrowLeft.

(** What the component returns. *)
Record View : Type := mkView {
  wide : bool;
  title : option string;
  toggleGlyph : Glyph;
  searchBox : option string;
  indicator : option string;
  groups : list Group;
  emptyNotice : option string
}.

(** The component body: props [items] and [collapsed], state [st]. *)
Definition Sidebar (items : list SidebarItem) (collapsed : bool)
  (st : SidebarState) : View :=
  let filtered := filteredItems items (searchQuery st) in
  {| wide := negb collapsed;
     title := if negb collapsed then Some "Components" else None;
     toggleGlyph := if collapsed then ArrowRight else ArrowLeft;
     searchBox := if negb collapsed then Some (searchQuery st) else None;
     indicator :=
       if Js.truthy (searchQuery st)
       then Some (resultsText (List.length filtered) (searchQuery st))
       else None;
     groups :=
       map (fun c =>
              {| heading := c;
                 rows := map (renderSidebarItem collapsed (expandedItems st) 0)
                             (filter (inCategory c) filtered) |})
           (categories items);
     emptyNotice :=
       if Nat.eqb (List.length filtered) 0 then Some "No components found" else None |}.

(** ** The scenarios of the specification *)

Definition leaf (i l : string) (c : option string) : SidebarItem :=
  {| id := i; label := l; icon := None; badge := None; active := None;
     onClick := None; children := None; category := c |}.

Definition scenarioItems : list SidebarItem :=
  [ leaf "a" "Button" (Some "components");
    leaf "b" "Avatar" (Some "components");
    leaf "c" "Hero" (Some "blocks") ].

Definition scenarioState : SidebarState := setSearchQuery "he" initialState.

(** ** Case-insensitive containment, as the specification words it *)

(** Two strings equal up to the case of their letters. *)
Inductive eq_ci : string -> string -> Prop :=
| eq_ci_nil : eq_ci "" ""
| eq_ci_cons c d s t :
    Js.lower_char c = Js.lower_char d -> eq_ci s t ->
    eq_ci (String c s) (String d t).

(** [q] is a case-insensitive substring of [s]: some contiguous run of [s]
    equals [q] up to case. *)
Definition contains_ci (s q : string) : Prop :=
  exists pre mid post, s = (pre ++ mid ++ post)%string /\ eq_ci mid q.

(** The match of the specification: on the label or on the category. *)
Definition matches_ci (q : string) (item : SidebarItem) : Prop :=
  contains_ci (label item) q \/
  exists c, category item = Some c /\ contains_ci c q.

(** ** ASCII strings

    The strings on which [Js.toLowerCase] is the built-in. *)

Definition isAsciiChar (c : ascii) : bool := (N_of_ascii c <? 128)%N.

Fixpoint isAscii (s : string) : bool :=
  match s with
  | EmptyString => true
  | String c s' => isAsciiChar c && isAscii s'
  end.

(** An entry whose label and category are ASCII strings. *)
Definition asciiItem (item : SidebarItem) : bool :=
  isAscii (label item) &&
  match category item with
  | Some c => isAscii c
  | None => true
  end.

(** ** Traversals used to state the properties *)

(** Induction on an item with the hypothesis available for every child. *)
Section NestedInduction.

Variable P : SidebarItem -> Prop.

Hypothesis step :
  forall i l ic b a oc ch cat,
    match ch with Some cs => Forall P cs | None => True end ->
    P (mkSidebarItem i l ic b a oc ch cat).

Fixpoint SidebarItem_nested_ind (item : SidebarItem) : P item :=
  match item with
  | mkSidebarItem i l ic b a oc ch cat =>
      step i l ic b a oc ch cat
        (match ch return match ch with
                         | Some cs => Forall P cs
                         | None => True
                         end with
         | Some cs =>
             (fix all (l0 : list SidebarItem) : Forall P l0 :=
                match l0 with
                | [] => Forall_nil P
                | x :: r => Forall_cons x (SidebarItem_nested_ind x) (all r)
                end) cs
         | None => I
         end)
  end.

End NestedInduction.

(** The ids of an item and of everything below it. *)
Fixpoint itemIds (item : SidebarItem) : list string :=
  match item with
  | mkSidebarItem i _ _ _ _ _ ch _ =>
      i :: match ch with
           | Some cs => flat_map itemIds cs
           | None => []
           end
  end.

(** A rendered row and every row nested below it. *)
Fixpoint rowsDeep (r : Row) : list Row :=
  match r with
  | mkRow _ _ _ _ _ _ n =>
      r :: match n with
           | Some rs => flat_map rowsDeep rs
           | None => []
           end
  end.

(** The label a row shows, when it shows one. *)
Definition text_label_of (r : Row) : option string :=
  option_map text_label (row_text r).

(** The category headings a view shows, in order. *)
Definition renderedHeadings (v : View) : list string :=
  map heading (groups v).

(** The state after a sequence of [toggleExpanded] calls. *)
Definition runToggles (ids : list string) (st : SidebarState) : SidebarState :=
  fold_left (fun acc i => toggleExpanded i acc) ids st.

(** ** The claims of the specification that the code does not meet,
       stated as the specification words them *)

(** An entry with a non-empty [children] sequence. *)
Definition hasNonEmptyChildren (item : SidebarItem) : bool :=
  match children item with
  | Some (_ :: _) => true
  | _ => false
  end.

(** A click as the specification describes it: a group, recognised by its
    non-empty children, has its membership flipped and no callback fired;
    any other entry fires its callback and leaves the expanded-set alone. *)
Definition clickAsSpecified (item : SidebarItem) (st : SidebarState) : Prop :=
  let st' := fst (handleClick item st) in
  let trace := snd (handleClick item st) in
  if hasNonEmptyChildren item
  then Js.array_includes (expandedItems st') (id item) =
       negb (Js.array_includes (expandedItems st) (id item)) /\
       trace = []
  else expandedItems st' = expandedItems st /\
       trace = invoke (onClick item).

(** The filtered tree as the specification describes it: every rendered
    row passes the match, and a heading is rendered exactly for the
    categories that have a matching entry. *)
Definition treeAsSpecified (items : list SidebarItem) (st : SidebarState) : Prop :=
  let v := Sidebar items false st in
  (forall g r, In g (groups v) -> In r (flat_map rowsDeep (rows g)) ->
               matches_ci (searchQuery st) (row_item r)) /\
  (forall c, In c (renderedHeadings v) <->
             exists item, In item items /\ category item = Some c /\
                          matches_ci (searchQuery st) item).

(** The collapsed panel as the specification describes it: no category
    heading, no label or badge on any row, and the same entries offered for
    interaction as in the expanded panel. *)
Definition collapsedAsSpecified (items : list SidebarItem) (st : SidebarState) : Prop :=
  let vc := Sidebar items true st in
  let ve := Sidebar items false st in
  renderedHeadings vc = [] /\
  (forall g r, In g (groups vc) -> In r (flat_map rowsDeep (rows g)) ->
               row_text r = None) /\
  map row_item (flat_map rowsDeep (flat_map rows (groups vc))) =
  map row_item (flat_map rowsDeep (flat_map rows (groups ve))).

(** An entry that has a [children] array with nothing in it. *)
Definition emptyGroup : SidebarItem :=
  {| id := "x"; label := "Docs"; icon := None; badge := None; active := None;
     onClick := Some 7; children := Some []; category := Some "docs" |}.

(** The second scenario of the specification: a group with one child. *)
Definition docsGroup : SidebarItem :=
  {| id := "x"; label := "Docs"; icon := None; badge := None; active := None;
     onClick := None; children := Some [leaf "x1" "Report" None];
     category := Some "docs" |}.

(** * Further behaviour of the sidebar *)

(** An entry the click handler treats as a group: [item.children] is
    truthy. *)
Definition isGroup (item : SidebarItem) : bool :=
  match children item with
  | Some _ => true
  | None => false
  end.

(** A sequence of clicks on rows, each handled in the state the previous
    one left: the final state and the callbacks invoked, in order. *)
Fixpoint runClicks (clicks : list SidebarItem) (st : SidebarState)
  : SidebarState * list Callback :=
  match clicks with
  | [] => (st, [])
  | item :: rest =>
      let '(st1, fired) := handleClick item st in
      let '(st2, later) := runClicks rest st1 in
      (st2, fired ++ later)
  end.

(** The entries shown under a rendered entry [root] when the panel is not
    collapsed: [root] itself and, below an entry that is shown, has
    [children] and is expanded, each of its children. *)
Inductive Shown (expanded : list string) (root : SidebarItem)
  : SidebarItem -> Prop :=
| Shown_root : Shown expanded root root
| Shown_child parent cs child :
    Shown expanded root parent ->
    children parent = Some cs ->
    In (id parent) expanded ->
    In child cs ->
    Shown expanded root child.

(** The rows directly below a row. *)
Definition nestedRows (r : Row) : list Row :=
  match nested r with
  | Some rs => rs
  | None => []
  end.

(** * The page that hosts the sidebar

    The [App] component of the second source file ([const App], the
    [sidebarItems] literal, [filteredSidebarItems] and the [Sidebar]
    element it returns).  The closure [() => setActiveComponent(id)] of the
    [k]-th entry of the literal is the callback handle [k], and so is its
    icon. *)

Module App.

(** [activeComponent], [activeCategory] and [sidebarCollapsed]. *)
Record AppState : Type := mkAppState {
  activeComponent : string;
  activeCategory : string;
  sidebarCollapsed : bool
}.

(** [useState('button')], [useState('components')], [useState(false)]. *)
Definition initial : AppState :=
  {| activeComponent := "button";
     activeCategory := "components";
     sidebarCollapsed := false |}.

(** The entries of the [sidebarItems] literal: id, label, category. *)
Definition entries : list (string * string * string) :=
  [ ("button", "Button", "components");
    ("avatar", "Avatar", "components");
    ("modal", "Modal", "components");
    ("drawer", "Drawer", "components");
    ("hero", "Hero", "blocks");
    ("header", "Header", "blocks");
    ("footer", "Footer", "blocks");
    ("sidebarlayout", "Sidebar Layout", "blocks");
    ("dashboardlayout", "Dashboard Layout", "blocks");
    ("applayout", "App Layout", "blocks") ].

(** One object of the literal, built in the current state. *)
Definition mkItem (st : AppState) (k : nat) (e : string * string * string)
  : SidebarItem :=
  let '(i, l, c) := e in
  {| id := i;
     label := l;
     icon := Some k;
     badge := None;
     active := Some (String.eqb (activeComponent st) i);
     onClick := Some k;
     children := None;
     category := Some c |}.

(** [sidebarItems]. *)
Definition sidebarItems (st : AppState) : list SidebarItem :=
  map (fun p => mkItem st (fst p) (snd p))
      (combine (seq 0 (List.length entries)) entries).

(** [filteredSidebarItems]:
    [sidebarItems.filter(item => item.category === activeCategory)]. *)
Definition filteredSidebarItems (st : AppState) : list SidebarItem :=
  filter (inCategory (activeCategory st)) (sidebarItems st).

(** Running the closure behind a callback handle:
    [setActiveComponent(id)] for the entry it belongs to. *)
Definition runCallback (k : Callback) (st : AppState) : AppState :=
  match nth_error entries k with
  | Some (i, _, _) =>
      {| activeComponent := i;
         activeCategory := activeCategory st;
         sidebarCollapsed := sidebarCollapsed st |}
  | None => st
  end.

(** [setActiveCategory(c)], the two buttons above the content. *)
Definition setActiveCategory (c : string) (st : AppState) : AppState :=
  {| activeComponent := activeComponent st;
     activeCategory := c;
     sidebarCollapsed := sidebarCollapsed st |}.

(** The [Sidebar] element the page returns; the sidebar's own state [sb]
    lives in the mounted component. *)
Definition sidebar (st : AppState) (sb : SidebarState) : View :=
  Sidebar (filteredSidebarItems st) (sidebarCollapsed st) sb.

(** A click on a sidebar row: the sidebar's handler runs, then the
    callbacks it invoked run against the page's state. *)
Definition clickRow (item : SidebarItem) (st : AppState) (sb : SidebarState)
  : AppState * SidebarState :=
  let '(sb', fired) := handleClick item sb in
  (fold_left (fun s k => runCallback k s) fired st, sb').

End App.

(** * Other components of the gallery

    Components of [src/app/page.tsx] with state or arithmetic of their
    own.  A JavaScript number that counts or indexes is a [Z]; content
    passed as [React.ReactNode] is an opaque handle. *)

(** ** [Accordion] *)

Module Accordion.

(** [interface AccordionItem]. *)
Record AccordionItem : Type := mkItem {
  id : string;
  title : string;
  content : nat;
  disabled : option bool
}.

(** [toggleItem(id)], as the updater of [openItems]. *)
Definition toggleItem (allowMultiple : bool) (id0 : string)
  (prev : list string) : list string :=
  if allowMultiple
  then if Js.array_includes prev id0
       then filter (fun item => negb (String.eqb item id0)) prev
       else prev ++ [id0]
  else if Js.array_includes prev id0 then [] else [id0].

(** Truthiness of [item.disabled]. *)
Definition isDisabled (item : AccordionItem) : bool :=
  match disabled item with
  | Some true => true
  | _ => false
  end.

(** The [onClick] of a header: [!item.disabled && toggleItem(item.id)]. *)
Definition handleClick (allowMultiple : bool) (item : AccordionItem)
  (openItems : list string) : list string :=
  if isDisabled item then openItems
  else toggleItem allowMultiple (id item) openItems.

(** One rendered panel: its key, whether the arrow is rotated and the
    body, present when the panel is open. *)
Record Panel : Type := mkPanel {
  key : string;
  rotated : bool;
  body : option nat
}.

(** The markup the component returns. *)
Definition render (items : list AccordionItem) (openItems : list string)
  : list Panel :=
  map (fun item =>
         {| key := id item;
            rotated := Js.array_includes openItems (id item);
            body := if Js.array_includes openItems (id item)
                    then Some (content item) else None |})
      items.

(** Whether a panel shows its body. *)
Definition isOpen (p : Panel) : bool :=
  match body p with Some _ => true | None => false end.

(** A sequence of header clicks starting from [defaultOpen]. *)
Definition runClicks (allowMultiple : bool) (clicks : list AccordionItem)
  (defaultOpen : list string) : list string :=
  fold_left (fun acc item => handleClick allowMultiple item acc) clicks defaultOpen.

End Accordion.

(** ** [Tabs] *)

Module Tabs.

(** [interface TabItem]. *)
Record TabItem : Type := mkTab {
  id : string;
  label : string;
  content : nat
}.


(** [activeTab === tab.id]. *)
Definition isActive (activeTab : option string) (tab : TabItem) : bool :=
  match activeTab with
  | Some a => String.eqb a (id tab)
  | None => false
  end.

(** The [onClick] of a tab button: [setActiveTab(tab.id)]. *)
Definition clickTab (tab : TabItem) : option string := Some (id tab).

(** [tabs.find((tab) => tab.id === activeTab)?.content]. *)
Definition shownContent (activeTab : option string) (tabs : list TabItem)
  : option nat :=
  option_map content (find (isActive activeTab) tabs).

End Tabs.

(** ** [Pagination] *)

Module Pagination.

(** [Array.from({ length: totalPages }, (_, i) => i + 1)], when it does
    not throw (see [render]). *)
Definition pages (totalPages : Z) : list Z :=
  map (fun i => (Z.of_nat i + 1)%Z) (seq 0 (Z.to_nat totalPages)).

(** The buttons of the component, in order. *)
Inductive Control : Type :=
| Previous
| PageButton (page : Z)
| Next.

Definition controls (totalPages : Z) : list Control :=
  Previous :: map PageButton (pages totalPages) ++ [Next].

(** What the component renders: the buttons, or nothing at all ([None])
    when building [pages] throws. *)
Definition render (totalPages : Z) : option (list Control) :=
  match Js.array_from_length totalPages with
  | Some _ => Some (controls totalPages)
  | None => None
  end.

(** The [disabled] attribute of a button. *)
Definition isDisabled (currentPage totalPages : Z) (c : Control) : bool :=
  match c with
  | Previous => (currentPage =? 1)%Z
  | PageButton _ => false
  | Next => (currentPage =? totalPages)%Z
  end.

(** The highlighted page button: [page === currentPage]. *)
Definition isCurrent (currentPage : Z) (c : Control) : bool :=
  match c with
  | PageButton page => (page =? currentPage)%Z
  | _ => false
  end.

(** A click on a button: the pages passed to [onPageChange]; a disabled
    button does not receive the click. *)
Definition click (currentPage totalPages : Z) (c : Control) : list Z :=
  if isDisabled currentPage totalPages c then []
  else match c with
       | Previous => [(currentPage - 1)%Z]
       | PageButton page => [page]
       | Next => [(currentPage + 1)%Z]
       end.

(** The page's use of the component: [onPageChange={setCurrentPage}]. *)
Definition clickInPage (totalPages : Z) (currentPage : Z) (c : Control) : Z :=
  fold_left (fun _ page => page) (click currentPage totalPages c) currentPage.

End Pagination.

(** ** [Carousel] *)

Module Carousel.

(** A number that is an integer or [NaN] ([None]). *)
Definition num : Type := option Z.

(** [a + k]. *)
Definition add (a : num) (k : Z) : num := option_map (fun x => (x + k)%Z) a.

(** [a % b]: the remainder has the sign of the dividend; [NaN] when the
    divisor is zero. *)
Definition rem (a : num) (b : Z) : num :=
  match a with
  | Some x => if (b =? 0)%Z then None else Some (Z.rem x b)
  | None => None
  end.

(** [goToNext], also the tick of the auto-play timer:
    [(prevIndex + 1) % children.length]. *)
Definition goToNext (len : nat) (prevIndex : num) : num :=
  rem (add prevIndex 1) (Z.of_nat len).

(** [goToPrev]: [(prevIndex - 1 + children.length) % children.length]. *)
Definition goToPrev (len : nat) (prevIndex : num) : num :=
  rem (add (add prevIndex (-1)) (Z.of_nat len)) (Z.of_nat len).

(** [goToSlide(index)], called by the indicator of slide [index]. *)
Definition goToSlide (index : nat) : num := Some (Z.of_nat index).


(** The user's actions. *)
Inductive Action : Type :=
| PrevClick
| NextClick
| IndicatorClick (index : nat).

Definition step (len : nat) (currentIndex : num) (a : Action) : num :=
  match a with
  | PrevClick => goToPrev len currentIndex
  | NextClick => goToNext len currentIndex
  | IndicatorClick index => goToSlide index
  end.

End Carousel.

(** ** [Rating] *)

Module Rating.

(** The stars, [Array.from({ length: max }, ...)]: star [i] is filled
    when [i < value]; [None] when [Array.from] throws. *)
Definition stars (value max : Z) : option (list bool) :=
  match Js.array_from_length max with
  | Some n => Some (map (fun i => (Z.of_nat i <? value)%Z) (seq 0 n))
  | None => None
  end.

(** The click on star [i]: [!readonly && onChange?.(i + 1)]; the values
    passed to [onChange]. *)
Definition click (readonly hasOnChange : bool) (i : nat) : list Z :=
  if readonly then []
  else if hasOnChange then [(Z.of_nat i + 1)%Z] else [].

End Rating.

(** ** [Masonry] *)

Module Masonry.

(** [columnElements[k].push(child)]; [None] when [columnElements[k]] is
    undefined and the call throws. *)
Fixpoint pushAt {A : Type} (cols : list (list A)) (k : nat) (child : A)
  : option (list (list A)) :=
  match cols, k with
  | [], _ => None
  | col :: rest, O => Some ((col ++ [child]) :: rest)
  | col :: rest, S k' => option_map (cons col) (pushAt rest k' child)
  end.

(** The [forEach] loop from position [index] on. *)
Fixpoint distribute {A : Type} (columns : Z) (cols : list (list A))
  (index : nat) (children : list A) : option (list (list A)) :=
  match children with
  | [] => Some cols
  | child :: rest =>
      if (columns =? 0)%Z then None
      else match pushAt cols (Z.to_nat (Z.rem (Z.of_nat index) columns)) child with
           | Some cols' => distribute columns cols' (S index) rest
           | None => None
           end
  end.

(** The columns the component renders; [None] when it throws. *)
Definition Masonry {A : Type} (columns : Z) (children : list A)
  : option (list (list A)) :=
  match Js.array_from_length columns with
  | Some n => distribute columns (repeat [] n) 0 children
  | None => None
  end.

End Masonry.

(** ** [Tree] *)

Module Tree.

(** [interface TreeNode]. *)
#[local] Unset Elimination Schemes.
Inductive TreeNode : Type := mkNode {
  id : string;
  label : string;
  children : option (list TreeNode);
  icon : option Icon;
  defaultExpanded : option bool
}.
#[local] Set Elimination Schemes.

(** [node.children && node.children.length > 0]. *)
Definition hasChildren (node : TreeNode) : bool :=
  match children node with
  | Some (_ :: _) => true
  | _ => false
  end.

(** Truthiness of [node.defaultExpanded]. *)
Definition startsExpanded (node : TreeNode) : bool :=
  match defaultExpanded node with
  | Some true => true
  | _ => false
  end.

(** The initial [expandedNodes], a [Set] kept in insertion order:
    [new Set(data.filter(node => node.defaultExpanded).map(node => node.id))]. *)
Definition initialExpanded (data : list TreeNode) : list string :=
  Js.spread_set (map id (filter startsExpanded data)).

(** [toggleNode(nodeId)], as the updater of [expandedNodes]. *)
Definition toggleNode (nodeId : string) (prev : list string) : list string :=
  let newSet := Js.spread_set prev in
  if Js.array_includes newSet nodeId
  then filter (fun x => negb (String.eqb x nodeId)) newSet
  else newSet ++ [nodeId].

(** The [onClick] of a node's line: the next [expandedNodes] and the nodes
    passed to [onSelect]. *)
Definition handleClick (hasOnSelect : bool) (node : TreeNode)
  (expandedNodes : list string) : list string * list TreeNode :=
  (if hasChildren node then toggleNode (id node) expandedNodes else expandedNodes,
   if hasOnSelect then [node] else []).

End Tree.

(** What the loop has built once the children before [index] are placed:
    column [k] holds, in order, the children at the indices [k],
    [k + n], [k + 2 n], ... below [index]. *)
Definition masonryPlaced {A : Type} (n : nat) (done : list A)
  (cols : list (list A)) : Prop :=
  List.length cols = n /\
  forall k j, k < n ->
    nth_error (nth k cols []) j =
    if (j * n + k <? List.length done)%nat then nth_error done (j * n + k) else None.

(** * Properties *)

(** ** Strings *)

Section StringFacts.

Lemma prefix_iff (q s : string) :
  String.prefix q s = true <-> exists post, s = (q ++ post)%string.
Proof.
  revert s; induction q as [|c q IH]; intros s; simpl.
  - split; [intros _; now exists s | intros _; now destruct s].
  - destruct s as [|d s]; simpl.
    + split; [discriminate | intros [post H]; discriminate].
    + destruct (Ascii.ascii_dec c d) as [->|Hne].
      * rewrite IH. split; intros [post H]; exists post.
        -- now rewrite H.
        -- now injection H.
      * split; [discriminate|].
        intros [post H]. injection H as H1 H2. now elim Hne.
Qed.

Lemma includes_iff (s q : string) :
  Js.includes s q = true <-> exists pre post, s = (pre ++ q ++ post)%string.
Proof.
  induction s as [|c s IH].
  - cbn [Js.includes]. destruct (String.prefix q "") eqn:Hp.
    + apply prefix_iff in Hp as [post Hp].
      split; [intros _; now exists "", post | intros _; reflexivity].
    + split; [discriminate|].
      intros [pre [post H]].
      destruct pre; simpl in H; [|discriminate].
      assert (String.prefix q "" = true) by (apply prefix_iff; now exists post).
      congruence.
  - cbn [Js.includes]. destruct (String.prefix q (String c s)) eqn:Hp.
    + apply prefix_iff in Hp as [post Hp].
      split; [intros _; now exists "", post | intros _; reflexivity].
    + rewrite IH. split.
      * intros [pre [post H]]. exists (String c pre), post. now rewrite H.
      * intros [pre [post H]]. destruct pre as [|d pre]; simpl in H.
        -- assert (String.prefix q (String c s) = true)
             by (apply prefix_iff; now exists post).
           congruence.
        -- injection H as _ H. now exists pre, post.
Qed.

Lemma includes_empty (s : string) : Js.includes s "" = true.
Proof. apply includes_iff. now exists "", s. Qed.

Lemma toLowerCase_app (s t : string) :
  Js.toLowerCase (s ++ t) = (Js.toLowerCase s ++ Js.toLowerCase t)%string.
Proof. induction s as [|c s IH]; simpl; [reflexivity | now rewrite IH]. Qed.

(** A split of the lower-cased string comes from a split of the string. *)
Lemma toLowerCase_split (s a b : string) :
  Js.toLowerCase s = (a ++ b)%string ->
  exists s1 s2, s = (s1 ++ s2)%string /\ Js.toLowerCase s1 = a /\ Js.toLowerCase s2 = b.
Proof.
  revert s; induction a as [|c a IH]; intros s H; simpl in H.
  - now exists "", s.
  - destruct s as [|d s]; simpl in H; [discriminate|].
    injection H as Hc H. destruct (IH _ H) as (s1 & s2 & -> & <- & <-).
    exists (String d s1), s2. simpl. now rewrite Hc.
Qed.

Lemma truthy_iff (s : string) : Js.truthy s = true <-> s <> "".
Proof. destruct s; simpl; split; congruence. Qed.

End StringFacts.

(** ** The specification's match and the code's *)

Lemma eq_ci_iff (s t : string) :
  eq_ci s t <-> Js.toLowerCase s = Js.toLowerCase t.
Proof.
  split.
  - induction 1; simpl; congruence.
  - revert t; induction s as [|c s IH]; intros [|d t] H; simpl in H;
      try discriminate; constructor.
    + now injection H.
    + apply IH. now injection H.
Qed.

Lemma contains_ci_iff (s q : string) :
  contains_ci s q <->
  Js.includes (Js.toLowerCase s) (Js.toLowerCase q) = true.
Proof.
  rewrite includes_iff. split.
  - intros (pre & mid & post & -> & H). apply eq_ci_iff in H.
    exists (Js.toLowerCase pre), (Js.toLowerCase post).
    now rewrite !toLowerCase_app, H.
  - intros (a & b & H).
    apply toLowerCase_split in H as (pre & rest & -> & _ & H).
    apply toLowerCase_split in H as (mid & post & -> & H & _).
    exists pre, mid, post. split; [reflexivity | now apply eq_ci_iff].
Qed.

Lemma matchesQuery_iff (q : string) (item : SidebarItem) :
  matchesQuery q item = true <-> matches_ci q item.
Proof.
  unfold matchesQuery, matches_ci. rewrite orb_true_iff, contains_ci_iff.
  destruct (category item) as [c|].
  - split; (intros [H|H]; [now left | right]).
    + exists c. split; [reflexivity | now apply contains_ci_iff].
    + destruct H as (c' & [= <-] & H). now apply contains_ci_iff.
  - split; (intros [H|H]; [now left | exfalso]).
    + discriminate.
    + now destruct H as (c' & [=] & _).
Qed.

(** ** The expanded-set *)

Lemma array_includes_iff (xs : list string) (x : string) :
  Js.array_includes xs x = true <-> In x xs.
Proof.
  unfold Js.array_includes. rewrite existsb_exists. split.
  - intros (y & Hy & E). apply String.eqb_eq in E. now subst.
  - intros H. exists x. split; [assumption | apply String.eqb_refl].
Qed.

Lemma array_includes_false_iff (xs : list string) (x : string) :
  Js.array_includes xs x = false <-> ~ In x xs.
Proof.
  rewrite <- array_includes_iff. now destruct (Js.array_includes xs x).
Qed.

Lemma array_includes_ext (xs ys : list string) :
  (forall x, In x xs <-> In x ys) ->
  forall x, Js.array_includes xs x = Js.array_includes ys x.
Proof.
  intros H x. apply eq_true_iff_eq. now rewrite !array_includes_iff.
Qed.

Lemma toggle_absent (id0 : string) (prev : list string) :
  ~ In id0 prev -> toggle id0 prev = prev ++ [id0].
Proof.
  intros H. unfold toggle.
  now rewrite (proj2 (array_includes_false_iff prev id0) H).
Qed.

Lemma toggle_present (id0 : string) (prev : list string) :
  In id0 prev ->
  toggle id0 prev = filter (fun item => negb (String.eqb item id0)) prev.
Proof.
  intros H. unfold toggle.
  now rewrite (proj2 (array_includes_iff prev id0) H).
Qed.

Lemma In_toggle (id0 x : string) (prev : list string) :
  In x (toggle id0 prev) <->
  (x = id0 /\ ~ In id0 prev) \/ (x <> id0 /\ In x prev).
Proof.
  destruct (in_dec string_dec id0 prev) as [Hin|Hout].
  - rewrite (toggle_present _ _ Hin), filter_In, negb_true_iff, String.eqb_neq.
    tauto.
  - rewrite (toggle_absent _ _ Hout), in_app_iff. simpl.
    destruct (string_dec x id0) as [->|Hne]; [tauto|].
    split; [intros [H|[H|[]]]; [tauto | congruence] | tauto].
Qed.

Lemma NoDup_snoc (x : string) (xs : list string) :
  NoDup xs -> ~ In x xs -> NoDup (xs ++ [x]).
Proof.
  intros Hnd Hout. induction Hnd as [|y ys Hy Hnd IH]; simpl.
  - constructor; [easy | constructor].
  - constructor.
    + rewrite in_app_iff. simpl. intros [H|[H|[]]]; [easy|].
      apply Hout. now left.
    + apply IH. intros H. apply Hout. now right.
Qed.

Lemma toggle_NoDup (id0 : string) (prev : list string) :
  NoDup prev -> NoDup (toggle id0 prev).
Proof.
  intros Hnd. destruct (in_dec string_dec id0 prev) as [Hin|Hout].
  - rewrite (toggle_present _ _ Hin). now apply NoDup_filter.
  - rewrite (toggle_absent _ _ Hout). now apply NoDup_snoc.
Qed.



Lemma toggle_twice_In (id0 x : string) (prev : list string) :
  In x (toggle id0 (toggle id0 prev)) <-> In x prev.
Proof.
  rewrite !In_toggle.
  destruct (string_dec x id0) as [->|Hne]; [|tauto].
  destruct (in_dec string_dec id0 prev); tauto.
Qed.

(** On an array without duplicates the double toggle gives back the same
    ids, possibly in another order: a present id moves to the end. *)
Lemma toggle_twice_Permutation (id0 : string) (prev : list string) :
  NoDup prev -> Permutation (toggle id0 (toggle id0 prev)) prev.
Proof.
  intros Hnd. apply NoDup_Permutation.
  - now do 2 apply toggle_NoDup.
  - assumption.
  - intros x. apply toggle_twice_In.
Qed.

Lemma toggle_twice_absent (id0 : string) (prev : list string) :
  ~ In id0 prev -> toggle id0 (toggle id0 prev) = prev.
Proof.
  intros Hout. rewrite (toggle_absent _ _ Hout).
  rewrite toggle_present by (rewrite in_app_iff; simpl; tauto).
  rewrite filter_app. simpl. rewrite String.eqb_refl. simpl.
  rewrite app_nil_r. apply forallb_filter_id. apply forallb_forall.
  intros y Hy. apply negb_true_iff, String.eqb_neq. congruence.
Qed.

(** At the level of the array the double toggle of a present id is not the
    identity: the id comes back at the end. *)
Example toggle_twice_reorders :
  toggle "x" (toggle "x" ["x"; "y"]) = ["y"; "x"].
Proof. reflexivity. Qed.

(** The renderer reads the expanded array only through [includes]. *)
Lemma renderSidebarItem_ext (collapsed : bool) (e1 e2 : list string) :
  (forall x, Js.array_includes e1 x = Js.array_includes e2 x) ->
  forall item level,
    renderSidebarItem collapsed e1 level item =
    renderSidebarItem collapsed e2 level item.
Proof.
  intros Hext item.
  induction item as [i l ic b a oc ch cat IH] using SidebarItem_nested_ind.
  intros level. cbn [renderSidebarItem]. rewrite (Hext i).
  destruct ch as [cs|]; [|reflexivity].
  destruct (negb collapsed); [|reflexivity].
  destruct (Js.array_includes e2 i); [|reflexivity].
  do 2 f_equal. apply map_ext_in. intros c Hc.
  rewrite Forall_forall in IH. now apply IH.
Qed.

Lemma Sidebar_ext (items : list SidebarItem) (collapsed : bool)
  (e1 e2 : list string) (q : string) :
  (forall x, Js.array_includes e1 x = Js.array_includes e2 x) ->
  Sidebar items collapsed {| expandedItems := e1; searchQuery := q |} =
  Sidebar items collapsed {| expandedItems := e2; searchQuery := q |}.
Proof.
  intros Hext. unfold Sidebar. cbn [expandedItems searchQuery]. f_equal.
  apply map_ext. intros c. f_equal. apply map_ext. intros item.
  now apply renderSidebarItem_ext.
Qed.

(** C4: toggling the same id twice in succession brings the expanded-set
    back to what it was.  The set is held in an array that the component
    reads only through [includes]: after the two toggles every id has the
    membership it had before, the filter text is untouched, and the panel
    renders exactly as before, for every entry collection and either
    display mode.  (The theorem holds for every id, so in particular for
    the id of an entry with children.) *)
Theorem toggleExpanded_involution (st : SidebarState) (id0 : string) :
  let st2 := toggleExpanded id0 (toggleExpanded id0 st) in
  (forall x, In x (expandedItems st2) <-> In x (expandedItems st)) /\
  (forall x, Js.array_includes (expandedItems st2) x =
             Js.array_includes (expandedItems st) x) /\
  searchQuery st2 = searchQuery st /\
  (forall items collapsed, Sidebar items collapsed st2 = Sidebar items collapsed st).
Proof.
  cbn zeta.
  assert (Hin : forall x,
             In x (expandedItems (toggleExpanded id0 (toggleExpanded id0 st)))
             <-> In x (expandedItems st))
    by (intros x; apply toggle_twice_In).
  pose proof (array_includes_ext _ _ Hin) as Hinc.
  repeat split; try apply Hin; try assumption.
  intros items collapsed. destruct st as [e q].
  exact (Sidebar_ext items collapsed _ e q Hinc).
Qed.


Lemma runToggles_searchQuery (ids : list string) (st : SidebarState) :
  searchQuery (runToggles ids st) = searchQuery st.
Proof.
  revert st; induction ids as [|i ids IH]; intros st; [reflexivity|].
  exact (IH (toggleExpanded i st)).
Qed.

(** C10: the two state cells are independent.  [toggleExpanded] rewrites
    the expanded-set only and leaves the filter text as it was, after one
    call, after any sequence of calls and when reached through a click on
    a row; setting the filter text stores the new text and leaves the
    expanded-set as it was; so the two updates commute. *)
Theorem state_cells_independent (st : SidebarState) (id0 text : string) :
  searchQuery (toggleExpanded id0 st) = searchQuery st /\
  expandedItems (toggleExpanded id0 st) = toggle id0 (expandedItems st) /\
  (forall ids, searchQuery (runToggles ids st) = searchQuery st) /\
  (forall item, searchQuery (fst (handleClick item st)) = searchQuery st) /\
  expandedItems (setSearchQuery text st) = expandedItems st /\
  searchQuery (setSearchQuery text st) = text /\
  toggleExpanded id0 (setSearchQuery text st) =
  setSearchQuery text (toggleExpanded id0 st).
Proof.
  split; [reflexivity|]. split; [reflexivity|]. split; [|split].
  - intros ids. apply runToggles_searchQuery.
  - intros item. unfold handleClick. now destruct (children item).
  - now repeat split.
Qed.

(** ** Filtering *)

Lemma filteredItems_In (items : list SidebarItem) (q : string) (item : SidebarItem) :
  In item (filteredItems items q) <-> In item items /\ matches_ci q item.
Proof. unfold filteredItems. now rewrite filter_In, matchesQuery_iff. Qed.

Lemma matchesQuery_empty (item : SidebarItem) : matchesQuery "" item = true.
Proof. unfold matchesQuery. cbn [Js.toLowerCase]. now rewrite includes_empty. Qed.

Lemma filter_idempotent {A : Type} (f : A -> bool) (l : list A) :
  filter f (filter f l) = filter f l.
Proof.
  induction l as [|x l IH]; [reflexivity|]. simpl.
  destruct (f x) eqn:E; simpl; [rewrite E|]; now rewrite IH.
Qed.

(** C3: filtering an entry collection by a query returns only entries of
    the collection whose label, or whose category, contains the query as a
    substring up to the case of letters (and it returns every such entry);
    and filtering the result again by the same query changes nothing.  The
    first part is stated for ASCII labels, categories and query, on which
    [Js.toLowerCase] is the built-in; the second holds for every
    collection and query. *)
Theorem filteredItems_sound_idempotent (E : list SidebarItem) (q : string) :
  (forallb asciiItem E = true -> isAscii q = true ->
   forall item, In item (filteredItems E q) <->
                In item E /\ matches_ci q item) /\
  filteredItems (filteredItems E q) q = filteredItems E q.
Proof.
  split.
  - intros _ _ item. apply filteredItems_In.
  - apply filter_idempotent.
Qed.

Lemma filteredItems_sound_witness :
  forallb asciiItem scenarioItems = true /\ isAscii "he" = true /\
  forall item, In item (filteredItems scenarioItems "he") <->
               In item scenarioItems /\ matches_ci "he" item.
Proof.
  split; [reflexivity|]. split; [reflexivity|].
  exact (proj1 (filteredItems_sound_idempotent scenarioItems "he") eq_refl eq_refl).
Defined.

(** C5: filtering with the empty string returns the entry collection
    itself: every entry, in the original order.  (Unique ids are not
    needed for this.) *)
Theorem filteredItems_empty_query (E : list SidebarItem) :
  filteredItems E "" = E.
Proof.
  unfold filteredItems. apply forallb_filter_id, forallb_forall.
  intros item _. apply matchesQuery_empty.
Qed.

(** ** Clicking *)

(** C2, as the specification states it, fails on an entry whose [children]
    array is empty: the handler tests [item.children], and an empty array
    is truthy, so the click expands the entry and its callback is not
    invoked. *)
Lemma clickAsSpecified_fails_on_empty_children :
  ~ clickAsSpecified emptyGroup initialState.
Proof. unfold clickAsSpecified. cbn. intros [H _]. discriminate. Qed.

(** C2 (amended): a click toggles the entry's membership in the
    expanded-set exactly when the entry has a [children] array, empty or
    not; the membership of every other id and the filter text stay as they
    were and no callback is invoked.  An entry without [children] leaves
    the whole state unchanged and invokes its own callback, when it has
    one. *)
Theorem handleClick_by_children (item : SidebarItem) (st : SidebarState) :
  let st' := fst (handleClick item st) in
  let trace := snd (handleClick item st) in
  match children item with
  | Some _ =>
      Js.array_includes (expandedItems st') (id item) =
      negb (Js.array_includes (expandedItems st) (id item)) /\
      (forall x, x <> id item ->
                 Js.array_includes (expandedItems st') x =
                 Js.array_includes (expandedItems st) x) /\
      searchQuery st' = searchQuery st /\
      trace = []
  | None =>
      st' = st /\ trace = invoke (onClick item)
  end.
Proof.
  unfold handleClick. destruct (children item) as [cs|]; cbn [fst snd].
  - unfold toggleExpanded. cbn [expandedItems searchQuery]. repeat split.
    + apply eq_true_iff_eq. rewrite negb_true_iff, array_includes_iff,
        array_includes_false_iff, In_toggle. tauto.
    + intros x Hx. apply eq_true_iff_eq.
      rewrite !array_includes_iff, In_toggle. tauto.
  - now split.
Qed.

(** The second scenario of the specification: clicking [Docs] expands it
    and shows the [Report] row, clicking it again collapses it and hides
    the row. *)
Example docs_scenario :
  let st1 := fst (handleClick docsGroup initialState) in
  let st2 := fst (handleClick docsGroup st1) in
  expandedItems st1 = ["x"] /\
  map key (flat_map rowsDeep (flat_map rows (groups (Sidebar [docsGroup] false st1))))
  = ["x"; "x1"] /\
  expandedItems st2 = [] /\
  map key (flat_map rowsDeep (flat_map rows (groups (Sidebar [docsGroup] false st2))))
  = ["x"].
Proof. repeat split. Qed.

(** ** The results line *)

Lemma string_length_app (a b : string) :
  String.length (a ++ b) = String.length a + String.length b.
Proof. induction a as [|c a IH]; cbn; [reflexivity | now rewrite IH]. Qed.

Lemma string_app_inv_tail (a b t : string) :
  (a ++ t)%string = (b ++ t)%string -> a = b.
Proof.
  revert b; induction a as [|c a IH]; intros [|d b] H; cbn in H.
  - reflexivity.
  - apply (f_equal String.length) in H. cbn in H.
    rewrite string_length_app in H. lia.
  - apply (f_equal String.length) in H. cbn in H.
    rewrite string_length_app in H. lia.
  - injection H as -> H. f_equal. now apply IH.
Qed.

(** The decimal numeral printed for a count reads back as that count. *)
Lemma number_to_string_read (n : nat) :
  option_map Nat.of_uint (NilEmpty.uint_of_string (Js.number_to_string n)) = Some n.
Proof.
  unfold Js.number_to_string. rewrite NilEmpty.usu. cbn [option_map].
  now rewrite DecimalNat.Unsigned.of_to.
Qed.

Lemma number_to_string_inj (n m : nat) :
  Js.number_to_string n = Js.number_to_string m -> n = m.
Proof.
  intros H. pose proof (number_to_string_read n) as Hn.
  rewrite H, number_to_string_read in Hn. congruence.
Qed.

(** C6: the results line is rendered exactly when the filter text is not
    empty; its text is the decimal numeral of the number of entries the
    filter leaves, over the whole collection, followed by [ results for ]
    and the filter text between double quotes.  The numeral reads back as
    that number, so the number of remaining entries is the only count
    whose line this is; in the scenario of the specification the line reads
    [1 results for "he"]. *)
Theorem results_indicator (items : list SidebarItem) (collapsed : bool)
  (st : SidebarState) :
  let q := searchQuery st in
  let v := Sidebar items collapsed st in
  let n := List.length (filteredItems items q) in
  (indicator v <> None <-> q <> "") /\
  (forall text, indicator v = Some text ->
                text = (Js.number_to_string n ++ " results for " ++
                        String (ascii_of_nat 34) q ++
                        String (ascii_of_nat 34) "")%string) /\
  option_map Nat.of_uint (NilEmpty.uint_of_string (Js.number_to_string n)) = Some n /\
  (forall m, indicator v =
             Some (Js.number_to_string m ++ " results for " ++
                   String (ascii_of_nat 34) q ++
                   String (ascii_of_nat 34) "")%string ->
             m = n) /\
  indicator (Sidebar scenarioItems false scenarioState) =
  Some ("1 results for " ++ String (ascii_of_nat 34) "he" ++
        String (ascii_of_nat 34) "")%string.
Proof.
  cbn zeta.
  assert (Htext : forall text,
             indicator (Sidebar items collapsed st) = Some text ->
             text = (Js.number_to_string
                       (List.length (filteredItems items (searchQuery st))) ++
                     " results for " ++ String (ascii_of_nat 34) (searchQuery st) ++
                     String (ascii_of_nat 34) "")%string).
  { unfold Sidebar. cbn [indicator]. intros text.
    destruct (Js.truthy (searchQuery st)); [|discriminate].
    intros [= <-]. reflexivity. }
  split; [|split; [exact Htext|split; [apply number_to_string_read|split]]].
  - unfold Sidebar. cbn [indicator].
    destruct (Js.truthy (searchQuery st)) eqn:E.
    + apply truthy_iff in E. split; [easy | discriminate].
    + destruct (searchQuery st); [|discriminate]. split; intros H; now elim H.
  - intros m H. apply Htext in H.
    apply string_app_inv_tail in H. now apply number_to_string_inj.
  - reflexivity.
Qed.

(** ** Category headings *)

Lemma set_add_In (acc : list string) (x y : string) :
  In y (Js.set_add acc x) <-> In y acc \/ y = x.
Proof.
  unfold Js.set_add. destruct (Js.array_includes acc x) eqn:E.
  - apply array_includes_iff in E. split; [tauto|]. intros [H| ->]; assumption.
  - rewrite in_app_iff. simpl. intuition congruence.
Qed.

Lemma set_add_NoDup (acc : list string) (x : string) :
  NoDup acc -> NoDup (Js.set_add acc x).
Proof.
  intros H. unfold Js.set_add. destruct (Js.array_includes acc x) eqn:E.
  - assumption.
  - apply NoDup_snoc; [assumption | now apply array_includes_false_iff].
Qed.

Lemma fold_set_add_In (xs acc : list string) (y : string) :
  In y (fold_left Js.set_add xs acc) <-> In y acc \/ In y xs.
Proof.
  revert acc; induction xs as [|x xs IH]; intros acc; simpl; [tauto|].
  rewrite IH, set_add_In. intuition congruence.
Qed.

Lemma fold_set_add_NoDup (xs acc : list string) :
  NoDup acc -> NoDup (fold_left Js.set_add xs acc).
Proof.
  revert acc; induction xs as [|x xs IH]; intros acc H; simpl; [assumption|].
  now apply IH, set_add_NoDup.
Qed.

Lemma definedCategories_In (items : list SidebarItem) (c : string) :
  In c (definedCategories items) <->
  c <> "" /\ exists item, In item items /\ category item = Some c.
Proof.
  unfold definedCategories. rewrite in_flat_map. split.
  - intros (item & Hin & Hc). destruct (category item) as [c'|] eqn:E; [|easy].
    destruct (Js.truthy c') eqn:T; [|easy]. destruct Hc as [->|[]].
    split; [now apply truthy_iff | now exists item].
  - intros (Hne & item & Hin & E). exists item. split; [assumption|].
    rewrite E. apply truthy_iff in Hne. rewrite Hne. now left.
Qed.

Lemma categories_In (items : list SidebarItem) (c : string) :
  In c (categories items) <->
  c <> "" /\ exists item, In item items /\ category item = Some c.
Proof.
  unfold categories, Js.spread_set.
  rewrite fold_set_add_In, definedCategories_In. simpl. tauto.
Qed.

Lemma categories_NoDup (items : list SidebarItem) : NoDup (categories items).
Proof. apply fold_set_add_NoDup. constructor. Qed.

Lemma inCategory_iff (c : string) (item : SidebarItem) :
  inCategory c item = true <-> category item = Some c.
Proof.
  unfold inCategory. destruct (category item) as [c'|]; [|easy].
  rewrite String.eqb_eq. split; congruence.
Qed.

(** ** Rows *)

Lemma render_row_item (collapsed : bool) (e : list string) (level : nat)
  (item : SidebarItem) :
  row_item (renderSidebarItem collapsed e level item) = item.
Proof. now destruct item. Qed.

Lemma render_icon (collapsed : bool) (e : list string) (level : nat)
  (item : SidebarItem) :
  row_icon (renderSidebarItem collapsed e level item) = icon item.
Proof. now destruct item. Qed.

Lemma render_collapsed (e : list string) (level : nat) (item : SidebarItem) :
  row_text (renderSidebarItem true e level item) = None /\
  nested (renderSidebarItem true e level item) = None.
Proof. now destruct item. Qed.

Lemma render_expanded_text (e : list string) (level : nat) (item : SidebarItem) :
  exists t, row_text (renderSidebarItem false e level item) = Some t /\
            text_label t = label item /\
            text_badge t = renderBadge (badge item).
Proof. destruct item. cbn. eexists. now repeat split. Qed.

(** The rows of a group, read off the component. *)
Lemma group_rows (items : list SidebarItem) (collapsed : bool)
  (st : SidebarState) (g : Group) :
  In g (groups (Sidebar items collapsed st)) <->
  In (heading g) (categories items) /\
  rows g = map (renderSidebarItem collapsed (expandedItems st) 0)
               (filter (inCategory (heading g))
                       (filteredItems items (searchQuery st))).
Proof.
  unfold Sidebar. cbn [groups]. rewrite in_map_iff. split.
  - intros (c & <- & Hc). now split.
  - intros [Hc Hr]. exists (heading g). split; [|assumption].
    destruct g as [h rs]. cbn in *. now rewrite Hr.
Qed.

Lemma group_row_source (items : list SidebarItem) (collapsed : bool)
  (st : SidebarState) (g : Group) (r : Row) :
  In g (groups (Sidebar items collapsed st)) -> In r (rows g) ->
  r = renderSidebarItem collapsed (expandedItems st) 0 (row_item r) /\
  In (row_item r) items /\
  category (row_item r) = Some (heading g) /\
  matchesQuery (searchQuery st) (row_item r) = true.
Proof.
  intros Hg Hr. apply group_rows in Hg as [_ E]. rewrite E in Hr.
  apply in_map_iff in Hr as (item & <- & Hin).
  apply filter_In in Hin as [Hin Hc]. apply filter_In in Hin as [Hin Hm].
  rewrite render_row_item. apply inCategory_iff in Hc. now repeat split.
Qed.





(** ** The filtered tree *)

(** C1, as the specification states it, fails in its own scenario: the
    category list is computed from the entries passed in, not from the
    filtered ones, so with the filter text [he] the [components] heading
    is rendered although neither [Button] nor [Avatar] matches. *)
Lemma treeAsSpecified_fails_in_scenario :
  ~ treeAsSpecified scenarioItems scenarioState.
Proof.
  intros [_ H].
  assert (Hh : In "components"
                 (renderedHeadings (Sidebar scenarioItems false scenarioState)))
    by (cbn; tauto).
  apply H in Hh as (item & Hin & Hc & Hm).
  apply matchesQuery_iff in Hm.
  cbn in Hin. destruct Hin as [<-|[<-|[<-|[]]]]; cbn in Hc, Hm; discriminate.
Qed.

(** Where the headings come from: the non-empty categories carried by some
    entry of the collection passed in, each once; neither the filter text
    nor the display mode enters. *)
Lemma headings_from_whole_collection (items : list SidebarItem)
  (collapsed : bool) (st : SidebarState) :
  renderedHeadings (Sidebar items collapsed st) = categories items /\
  NoDup (categories items) /\
  (forall c, In c (categories items) <->
             c <> "" /\ exists item, In item items /\ category item = Some c).
Proof.
  split; [|split].
  - unfold renderedHeadings, Sidebar. cbn [groups]. rewrite map_map. cbn.
    apply map_id.
  - apply categories_NoDup.
  - intros c. apply categories_In.
Qed.

Lemma filter_filter {A : Type} (f g : A -> bool) (l : list A) :
  filter g (filter f l) = filter (fun x => f x && g x) l.
Proof.
  induction l as [|x l IH]; [reflexivity|]. cbn [filter].
  destruct (f x); cbn [filter andb]; [destruct (g x)|]; now rewrite IH.
Qed.

(** C1 (amended): for every entry collection with unique ids and ASCII
    labels and categories, every ASCII filter text, display mode and
    expanded-set, the
    rows directly under a heading are the entries of the collection that
    have this category and pass the case-insensitive label-or-category
    match, in collection order, and nothing else; every entry with a
    non-empty category that passes the match has its row under the heading
    of its category, which is therefore rendered.  (Rows nested under an
    expanded row are the entry's children, which are not filtered.)  In the
    scenario of the specification with filter text [he], the only row
    rendered is that of [Hero], and the [blocks] heading is rendered with
    this one entry. *)
Theorem groups_show_matching_rows (items : list SidebarItem) (collapsed : bool)
  (st : SidebarState) :
  NoDup (flat_map itemIds items) ->
  forallb asciiItem items = true ->
  isAscii (searchQuery st) = true ->
  let q := searchQuery st in
  let v := Sidebar items collapsed st in
  (forall g r, In g (groups v) -> In r (rows g) ->
               In (row_item r) items /\
               category (row_item r) = Some (heading g) /\
               matches_ci q (row_item r)) /\
  (forall g, In g (groups v) ->
             map row_item (rows g) =
             filter (fun item => matchesQuery q item && inCategory (heading g) item)
                    items) /\
  (forall item c, In item items -> category item = Some c -> c <> "" ->
                  matches_ci q item ->
                  In c (renderedHeadings v) /\
                  exists g, In g (groups v) /\ heading g = c /\
                            In (renderSidebarItem collapsed (expandedItems st) 0 item)
                               (rows g)) /\
  map text_label_of
      (flat_map rowsDeep
                (flat_map rows (groups (Sidebar scenarioItems false scenarioState)))) =
  [Some "Hero"] /\
  In ("blocks", [Some "Hero"])
     (map (fun g => (heading g, map text_label_of (rows g)))
          (groups (Sidebar scenarioItems false scenarioState))).
Proof.
  intros _ _ _. cbn zeta. split; [|split; [|split; [|split]]].
  - intros g r Hg Hr.
    destruct (group_row_source _ _ _ _ _ Hg Hr) as (_ & Hin & Hc & Hm).
    repeat split; try assumption. now apply matchesQuery_iff.
  - intros g Hg. apply group_rows in Hg as [_ ->].
    rewrite map_map. unfold filteredItems. rewrite filter_filter.
    rewrite <- (map_id (filter _ items)) at 2.
    apply map_ext. intros item. apply render_row_item.
  - intros item c Hin Hc Hne Hm.
    assert (Hcat : In c (categories items))
      by (apply categories_In; split; [assumption | now exists item]).
    split.
    { now rewrite (proj1 (headings_from_whole_collection items collapsed st)). }
    exists {| heading := c;
              rows := map (renderSidebarItem collapsed (expandedItems st) 0)
                          (filter (inCategory c)
                                  (filteredItems items (searchQuery st))) |}.
    split; [|split; [reflexivity|]].
    + apply group_rows. cbn [heading rows]. now split.
    + cbn [rows]. apply in_map, filter_In. split.
      * apply filteredItems_In. now split.
      * now apply inCategory_iff.
  - reflexivity.
  - cbn. tauto.
Qed.

Lemma groups_show_matching_rows_witness :
  NoDup (flat_map itemIds scenarioItems) /\
  forallb asciiItem scenarioItems = true /\
  isAscii (searchQuery scenarioState) = true /\
  map text_label_of
      (flat_map rowsDeep
                (flat_map rows (groups (Sidebar scenarioItems false scenarioState)))) =
  [Some "Hero"].
Proof.
  assert (Hnd : NoDup (flat_map itemIds scenarioItems))
    by (cbn; repeat constructor; cbn; intuition discriminate).
  split; [exact Hnd|]. split; [reflexivity|]. split; [reflexivity|].
  exact (proj1 (proj2 (proj2 (proj2
           (groups_show_matching_rows scenarioItems false scenarioState
                                      Hnd eq_refl eq_refl))))).
Defined.

(** ** The collapsed panel *)

(** C7, as the specification states it, fails on the group of the
    specification's second scenario once it is expanded: the collapsed
    panel does not render the row of the child [Report], which the expanded
    panel offers for interaction, and it still renders the [docs] heading,
    since the category loop does not look at the display mode. *)
Lemma collapsedAsSpecified_fails_on_expanded_group :
  ~ collapsedAsSpecified [docsGroup] (toggleExpanded "x" initialState).
Proof. intros (_ & _ & H). cbn in H. discriminate. Qed.

(** The headings of the collapsed panel are those of the expanded one. *)
Lemma collapsed_keeps_headings (items : list SidebarItem) (st : SidebarState) :
  renderedHeadings (Sidebar items true st) =
  renderedHeadings (Sidebar items false st).
Proof.
  now rewrite !(proj1 (headings_from_whole_collection items _ st)).
Qed.

(** In the collapsed panel the rows of an expanded group's children are
    not rendered: the child of the specification's second scenario is
    offered for interaction in the expanded panel only. *)
Lemma collapsed_hides_child_rows :
  let st := toggleExpanded "x" initialState in
  map key (flat_map rowsDeep (flat_map rows (groups (Sidebar [docsGroup] false st))))
  = ["x"; "x1"] /\
  map key (flat_map rowsDeep (flat_map rows (groups (Sidebar [docsGroup] true st))))
  = ["x"].
Proof. split; reflexivity. Qed.

(** C7 (amended): for every entry collection and state, the collapsed
    panel drops the panel title and the search box, shows no label, badge
    or arrow on any row and no row of an expanded entry's children; the
    rows of each group stand for the same entries, in the same order, as
    in the expanded panel (where each shows its label and badge), each with
    its click target and with its icon when the entry has one. *)
Theorem collapsed_view (items : list SidebarItem) (st : SidebarState) :
  let vc := Sidebar items true st in
  let ve := Sidebar items false st in
  title vc = None /\ searchBox vc = None /\
  (forall g r, In g (groups vc) -> In r (rows g) ->
               row_text r = None /\ nested r = None /\
               row_icon r = icon (row_item r)) /\
  (forall g r, In g (groups ve) -> In r (rows g) ->
               exists t, row_text r = Some t /\
                         text_label t = label (row_item r) /\
                         text_badge t = renderBadge (badge (row_item r))) /\
  map (fun g => map row_item (rows g)) (groups vc) =
  map (fun g => map row_item (rows g)) (groups ve).
Proof.
  cbn zeta. split; [reflexivity|]. split; [reflexivity|].
  split; [|split].
  - intros g r Hg Hr.
    destruct (group_row_source _ _ _ _ _ Hg Hr) as (E & _). rewrite E.
    rewrite render_row_item, render_icon.
    destruct (render_collapsed (expandedItems st) 0 (row_item r)) as [-> ->].
    now repeat split.
  - intros g r Hg Hr.
    destruct (group_row_source _ _ _ _ _ Hg Hr) as (E & _). rewrite E.
    rewrite render_row_item. apply render_expanded_text.
  - unfold Sidebar. cbn [groups]. rewrite !map_map. apply map_ext.
    intros c. cbn [heading rows]. rewrite !map_map.
    apply map_ext. intros item. now rewrite !render_row_item.
Qed.

(** ** Entries without a category *)






(** * Further properties of the sidebar *)

(** ** Refining the filter text *)

Lemma string_app_assoc (a b c : string) :
  ((a ++ b) ++ c)%string = (a ++ b ++ c)%string.
Proof. induction a as [|x a IH]; simpl; [reflexivity | now rewrite IH]. Qed.

Lemma includes_trans (s q' q : string) :
  Js.includes s q' = true -> Js.includes q' q = true -> Js.includes s q = true.
Proof.
  rewrite !includes_iff. intros (a & b & ->) (c & d & ->).
  exists (a ++ c)%string, (d ++ b)%string.
  now rewrite !string_app_assoc.
Qed.

Lemma matchesQuery_narrow (q q' : string) (item : SidebarItem) :
  contains_ci q' q -> matchesQuery q' item = true -> matchesQuery q item = true.
Proof.
  intros Hq. apply contains_ci_iff in Hq. unfold matchesQuery.
  rewrite !orb_true_iff. intros [H|H].
  - left. exact (includes_trans _ _ _ H Hq).
  - right. destruct (category item) as [c|]; [|discriminate].
    exact (includes_trans _ _ _ H Hq).
Qed.

(** X1: refining the filter text never brings an entry back.  When the new
    text contains the old one up to the case of letters (characters were
    typed before or after it, or only the case changed), filtering the
    collection by the new text gives the same list as filtering the old
    result by the new text.  Stated for ASCII labels, categories and
    filter texts, on which [Js.toLowerCase] is the built-in. *)
Theorem filteredItems_refine (E : list SidebarItem) (q q' : string) :
  forallb asciiItem E = true -> isAscii q = true -> isAscii q' = true ->
  contains_ci q' q ->
  filteredItems (filteredItems E q) q' = filteredItems E q' /\
  (forall item, In item (filteredItems E q') -> In item (filteredItems E q)).
Proof.
  intros _ _ _ Hq. split.
  - unfold filteredItems. rewrite filter_filter. apply filter_ext_in.
    intros item _. destruct (matchesQuery q' item) eqn:E'.
    + now rewrite (matchesQuery_narrow _ _ _ Hq E').
    + apply andb_false_r.
  - intros item. unfold filteredItems. rewrite !filter_In. intros [Hin Hm].
    split; [assumption | exact (matchesQuery_narrow _ _ _ Hq Hm)].
Qed.

Lemma filteredItems_refine_witness :
  forallb asciiItem scenarioItems = true /\
  isAscii "he" = true /\ isAscii "Her" = true /\
  contains_ci "Her" "he" /\
  filteredItems (filteredItems scenarioItems "he") "Her" =
  filteredItems scenarioItems "Her".
Proof.
  assert (H : contains_ci "Her" "he") by (apply contains_ci_iff; reflexivity).
  repeat (split; [reflexivity|]).
  split; [exact H|].
  exact (proj1 (filteredItems_refine scenarioItems "he" "Her" eq_refl eq_refl eq_refl H)).
Defined.

(** ** The empty notice *)

Lemma filteredItems_nil_iff (items : list SidebarItem) (q : string) :
  filteredItems items q = [] <->
  forall item, In item items -> ~ matches_ci q item.
Proof.
  split.
  - intros E item Hin Hm.
    assert (H : In item (filteredItems items q)) by (apply filteredItems_In; now split).
    rewrite E in H. destruct H.
  - intros H. destruct (filteredItems items q) as [|x l] eqn:E; [reflexivity|].
    assert (Hx : In x (filteredItems items q)) by (rewrite E; now left).
    apply filteredItems_In in Hx as [Hin Hm]. now elim (H x Hin).
Qed.

(** X2: the notice [No components found] is rendered exactly when no entry
    of the collection passes the filter, and then no group has a row.  The
    groups can also all be empty without the notice: that happens exactly
    when every entry that passes the filter has an undefined or empty
    category.  Passing the filter is matching the filter text up to case,
    for ASCII labels, categories and filter text. *)
Theorem emptyNotice_iff (items : list SidebarItem) (collapsed : bool)
  (st : SidebarState) :
  forallb asciiItem items = true ->
  isAscii (searchQuery st) = true ->
  let q := searchQuery st in
  let v := Sidebar items collapsed st in
  (emptyNotice v <> None <->
   forall item, In item items -> ~ matches_ci q item) /\
  (emptyNotice v <> None -> forall g, In g (groups v) -> rows g = []) /\
  ((forall g, In g (groups v) -> rows g = []) <->
   (forall item, In item items -> matches_ci q item ->
                 category item = None \/ category item = Some "")).
Proof.
  intros _ _. cbn zeta.
  assert (Hn : emptyNotice (Sidebar items collapsed st) <> None <->
               filteredItems items (searchQuery st) = []).
  { unfold Sidebar. cbn [emptyNotice].
    destruct (filteredItems items (searchQuery st)); cbn; split; congruence. }
  split; [|split].
  - rewrite Hn. apply filteredItems_nil_iff.
  - intros H g Hg. apply Hn in H. apply group_rows in Hg as [_ ->].
    now rewrite H.
  - split.
    + intros H item Hin Hm. destruct (category item) as [c|] eqn:Hc; [|now left].
      right. destruct (string_dec c "") as [->|Hne]; [reflexivity|]. exfalso.
      set (g := {| heading := c;
                   rows := map (renderSidebarItem collapsed (expandedItems st) 0)
                               (filter (inCategory c)
                                       (filteredItems items (searchQuery st))) |}).
      assert (Hg : In g (groups (Sidebar items collapsed st))).
      { apply group_rows. cbn [heading rows]. split; [|reflexivity].
        apply categories_In. split; [assumption | now exists item]. }
      specialize (H g Hg). cbn [g rows] in H.
      apply map_eq_nil in H.
      assert (Hi : In item (filter (inCategory c)
                                   (filteredItems items (searchQuery st)))).
      { apply filter_In. split; [apply filteredItems_In; now split|].
        now apply inCategory_iff. }
      rewrite H in Hi. destruct Hi.
    + intros H g Hg. destruct (rows g) as [|r rs] eqn:E; [reflexivity|].
      exfalso.
      assert (Hr : In r (rows g)) by (rewrite E; now left).
      destruct (group_row_source _ _ _ _ _ Hg Hr) as (_ & Hin & Hc & Hm).
      apply matchesQuery_iff in Hm.
      apply group_rows in Hg as [Hh _]. apply categories_In in Hh as [Hne _].
      destruct (H _ Hin Hm) as [Hn'|Hn']; rewrite Hc in Hn'; congruence.
Qed.

Lemma emptyNotice_iff_witness :
  forallb asciiItem scenarioItems = true /\
  isAscii (searchQuery scenarioState) = true /\
  (emptyNotice (Sidebar scenarioItems false scenarioState) <> None <->
   forall item, In item scenarioItems -> ~ matches_ci "he" item).
Proof.
  split; [reflexivity|]. split; [reflexivity|].
  exact (proj1 (emptyNotice_iff scenarioItems false scenarioState eq_refl eq_refl)).
Defined.

(** ** The order of the headings *)

Lemma set_add_snoc_fold (xs acc : list string) (x : string) :
  fold_left Js.set_add (xs ++ [x]) acc = Js.set_add (fold_left Js.set_add xs acc) x.
Proof. now rewrite fold_left_app. Qed.

Lemma fold_set_add_from (xs acc : list string) :
  fold_left Js.set_add xs acc =
  acc ++ filter (fun y => negb (Js.array_includes acc y))
                (fold_left Js.set_add xs []).
Proof.
  induction xs as [|x xs IH] using rev_ind.
  - simpl. now rewrite app_nil_r.
  - rewrite !set_add_snoc_fold, IH. unfold Js.set_add at 1 3.
    destruct (Js.array_includes (fold_left Js.set_add xs []) x) eqn:E0.
    + assert (Hin : Js.array_includes
                      (acc ++ filter (fun y => negb (Js.array_includes acc y))
                                     (fold_left Js.set_add xs [])) x = true).
      { apply array_includes_iff, in_or_app.
        destruct (Js.array_includes acc x) eqn:Ea.
        - left. now apply array_includes_iff.
        - right. apply filter_In. split; [now apply array_includes_iff|].
          now rewrite Ea. }
      now rewrite Hin.
    + rewrite filter_app. cbn [filter].
      destruct (Js.array_includes acc x) eqn:Ea; cbn [negb].
      * rewrite app_nil_r.
        assert (Hin : Js.array_includes
                        (acc ++ filter (fun y => negb (Js.array_includes acc y))
                                       (fold_left Js.set_add xs [])) x = true).
        { apply array_includes_iff, in_or_app. left. now apply array_includes_iff. }
        now rewrite Hin.
      * assert (Hout : Js.array_includes
                         (acc ++ filter (fun y => negb (Js.array_includes acc y))
                                        (fold_left Js.set_add xs [])) x = false).
        { apply array_includes_false_iff. intros H. apply in_app_or in H as [H|H].
          - apply array_includes_iff in H. congruence.
          - apply filter_In in H as [H _]. apply array_includes_iff in H. congruence. }
        rewrite Hout. now rewrite app_assoc.
Qed.

Lemma spread_set_cons (x : string) (xs : list string) :
  Js.spread_set (x :: xs) =
  x :: filter (fun y => negb (String.eqb y x)) (Js.spread_set xs).
Proof.
  unfold Js.spread_set. cbn [fold_left]. unfold Js.set_add at 2.
  cbn [Js.array_includes existsb app]. rewrite fold_set_add_from.
  cbn [app]. f_equal. apply filter_ext. intros y.
  unfold Js.array_includes. cbn [existsb]. now rewrite orb_false_r.
Qed.

Lemma spread_set_snoc (xs : list string) (x : string) :
  Js.spread_set (xs ++ [x]) = Js.set_add (Js.spread_set xs) x.
Proof. apply set_add_snoc_fold. Qed.

(** X3: the headings come in first-seen order.  The category of the first
    entry, when defined and not empty, is the first heading and the other
    headings are those of the remaining entries without it; an entry added
    at the end of the collection adds a heading at the end when its
    category is new, and changes nothing otherwise. *)
Theorem headings_first_seen (item : SidebarItem) (rest : list SidebarItem)
  (collapsed : bool) (st : SidebarState) :
  let headings items := renderedHeadings (Sidebar items collapsed st) in
  headings (item :: rest) =
  match category item with
  | Some c =>
      if Js.truthy c
      then c :: filter (fun y => negb (String.eqb y c)) (headings rest)
      else headings rest
  | None => headings rest
  end /\
  headings (rest ++ [item]) =
  match category item with
  | Some c =>
      if Js.truthy c && negb (Js.array_includes (headings rest) c)
      then headings rest ++ [c]
      else headings rest
  | None => headings rest
  end.
Proof.
  cbv beta zeta.
  rewrite !(proj1 (headings_from_whole_collection _ collapsed st)).
  unfold categories, definedCategories. split.
  - cbn [flat_map]. destruct (category item) as [c|]; [|reflexivity].
    destruct (Js.truthy c); [|reflexivity]. cbn [app]. apply spread_set_cons.
  - rewrite flat_map_app. cbn [flat_map]. rewrite app_nil_r.
    destruct (category item) as [c|]; [|now rewrite app_nil_r].
    destruct (Js.truthy c); cbn [andb]; [|now rewrite app_nil_r].
    rewrite spread_set_snoc. unfold Js.set_add.
    now destruct (Js.array_includes _ c).
Qed.

(** ** Rows below an expanded entry *)

Lemma rowsDeep_head (r : Row) : In r (rowsDeep r).
Proof. destruct r. now left. Qed.

Lemma rowsDeep_unfold (r : Row) :
  rowsDeep r = r :: flat_map rowsDeep (nestedRows r).
Proof. destruct r as [k it h p ic t n]. unfold nestedRows. now destruct n. Qed.

Lemma render_nestedRows (collapsed : bool) (e : list string) (level : nat)
  (item : SidebarItem) :
  nestedRows (renderSidebarItem collapsed e level item) =
  if negb collapsed && isGroup item && Js.array_includes e (id item)
  then map (renderSidebarItem collapsed e (S level))
           (match children item with Some cs => cs | None => [] end)
  else [].
Proof.
  destruct item as [i l ic b a oc ch cat]. unfold nestedRows, isGroup.
  cbn [renderSidebarItem nested children id].
  destruct (negb collapsed); [|reflexivity].
  destruct ch as [cs|]; [|reflexivity].
  now destruct (Js.array_includes e i).
Qed.

Lemma render_paddingLeft (collapsed : bool) (e : list string) (level : nat)
  (item : SidebarItem) :
  paddingLeft (renderSidebarItem collapsed e level item) = level * 12 + 12.
Proof. now destruct item. Qed.

(** Every row at any depth is the rendering of its own entry, at the level
    of the rendered entry or deeper. *)
Lemma rowsDeep_are_renders (collapsed : bool) (e : list string)
  (item : SidebarItem) :
  forall level r,
    In r (rowsDeep (renderSidebarItem collapsed e level item)) ->
    exists level', level <= level' /\
                   r = renderSidebarItem collapsed e level' (row_item r).
Proof.
  induction item as [i l ic b a oc ch cat IH] using SidebarItem_nested_ind.
  intros level r. rewrite rowsDeep_unfold. intros [<-|H].
  - exists level. split; [lia | now rewrite render_row_item].
  - rewrite render_nestedRows in H. cbn [children isGroup id] in H.
    destruct (negb collapsed && isGroup (mkSidebarItem i l ic b a oc ch cat)
              && Js.array_includes e i); [|destruct H].
    destruct ch as [cs|]; [|destruct H].
    apply in_flat_map in H as (x & Hx & Hr).
    apply in_map_iff in Hx as (child & <- & Hchild).
    rewrite Forall_forall in IH.
    destruct (IH child Hchild _ _ Hr) as (level' & Hle & E).
    exists level'. split; [lia | assumption].
Qed.

(** The rows below a rendered entry are closed under taking nested rows. *)
Lemma rowsDeep_closed (collapsed : bool) (e : list string) (item : SidebarItem) :
  forall level r r',
    In r (rowsDeep (renderSidebarItem collapsed e level item)) ->
    In r' (nestedRows r) ->
    In r' (rowsDeep (renderSidebarItem collapsed e level item)).
Proof.
  induction item as [i l ic b a oc ch cat IH] using SidebarItem_nested_ind.
  intros level r r'. rewrite rowsDeep_unfold. intros [<-|H] Hr'.
  - right. apply in_flat_map. exists r'. split; [assumption | apply rowsDeep_head].
  - right. rewrite render_nestedRows in H |- *. cbn [children isGroup id] in H |- *.
    destruct (negb collapsed && isGroup (mkSidebarItem i l ic b a oc ch cat)
              && Js.array_includes e i); [|destruct H].
    destruct ch as [cs|]; [|destruct H].
    apply in_flat_map in H as (x & Hx & Hr).
    apply in_flat_map. exists x. split; [assumption|].
    apply in_map_iff in Hx as (child & <- & Hchild).
    rewrite Forall_forall in IH. exact (IH child Hchild _ _ _ Hr Hr').
Qed.

Lemma Shown_trans (e : list string) (root mid x : SidebarItem) :
  Shown e root mid -> Shown e mid x -> Shown e root x.
Proof.
  intros Hm Hx. induction Hx as [|parent cs child _ IH Hc He Hin].
  - assumption.
  - exact (Shown_child e root parent cs child IH Hc He Hin).
Qed.

Lemma rowsDeep_Shown (e : list string) (root : SidebarItem) :
  forall level r,
    In r (rowsDeep (renderSidebarItem false e level root)) ->
    Shown e root (row_item r).
Proof.
  induction root as [i l ic b a oc ch cat IH] using SidebarItem_nested_ind.
  intros level r. rewrite rowsDeep_unfold. intros [<-|H].
  - rewrite render_row_item. constructor.
  - rewrite render_nestedRows in H. cbn [children isGroup id negb andb] in H.
    destruct ch as [cs|]; [|destruct H]. cbn [isGroup children andb] in H.
    destruct (Js.array_includes e i) eqn:He; [|destruct H].
    apply in_flat_map in H as (x & Hx & Hr).
    apply in_map_iff in Hx as (child & <- & Hchild).
    rewrite Forall_forall in IH.
    apply (Shown_trans e _ child).
    + apply (Shown_child e _ (mkSidebarItem i l ic b a oc (Some cs) cat) cs child);
        [constructor | reflexivity | now apply array_includes_iff | assumption].
    + exact (IH child Hchild _ _ Hr).
Qed.

Lemma Shown_rowsDeep (e : list string) (root x : SidebarItem) (level : nat) :
  Shown e root x ->
  exists level',
    In (renderSidebarItem false e level' x)
       (rowsDeep (renderSidebarItem false e level root)).
Proof.
  induction 1 as [|parent cs child _ [level' IH] Hc He Hin].
  - exists level. apply rowsDeep_head.
  - exists (S level'). apply (rowsDeep_closed _ _ _ _ _ _ IH).
    rewrite render_nestedRows. cbn [negb andb]. unfold isGroup. rewrite Hc.
    cbn [andb]. rewrite (proj2 (array_includes_iff _ _) He).
    now apply in_map.
Qed.

(** X4: which entries get a row below a rendered entry.  In the expanded
    panel an entry has a row at some depth below the rendered entry [root]
    exactly when it is [root] or a child of an entry that has a row there
    and is expanded, so exactly when every entry on the way down to it is
    expanded; the filter text plays no part below the top level.  In the
    collapsed panel only [root] itself has a row. *)
Theorem nested_rows_shown (e : list string) (root : SidebarItem) (level : nat) :
  (forall x, In x (map row_item (rowsDeep (renderSidebarItem false e level root)))
             <-> Shown e root x) /\
  map row_item (rowsDeep (renderSidebarItem true e level root)) = [root].
Proof.
  split.
  - intros x. split.
    + intros H. apply in_map_iff in H as (r & <- & Hr).
      exact (rowsDeep_Shown e root level r Hr).
    + intros H. destruct (Shown_rowsDeep e root x level H) as [level' Hr].
      apply in_map_iff. exists (renderSidebarItem false e level' x).
      split; [apply render_row_item | assumption].
  - rewrite rowsDeep_unfold, render_nestedRows. cbn [negb andb map flat_map].
    now rewrite render_row_item.
Qed.

(** X5: indentation follows depth.  Every row directly under a heading has
    a left inset of 12 pixels, and every row nested under another row, at
    any depth, is inset 12 pixels more than the row it is nested under. *)
Theorem indentation_by_depth (items : list SidebarItem) (collapsed : bool)
  (st : SidebarState) :
  let v := Sidebar items collapsed st in
  (forall g r, In g (groups v) -> In r (rows g) -> paddingLeft r = 12) /\
  (forall g r r', In g (groups v) -> In r (flat_map rowsDeep (rows g)) ->
                  In r' (nestedRows r) ->
                  paddingLeft r' = paddingLeft r + 12).
Proof.
  cbn zeta. split.
  - intros g r Hg Hr. destruct (group_row_source _ _ _ _ _ Hg Hr) as (-> & _).
    now rewrite render_paddingLeft.
  - intros g r r' Hg Hr Hr'. apply in_flat_map in Hr as (top & Htop & Hr).
    destruct (group_row_source _ _ _ _ _ Hg Htop) as (E & _). rewrite E in Hr.
    destruct (rowsDeep_are_renders _ _ _ _ _ Hr) as (level' & _ & Er).
    rewrite Er in Hr' |- *. rewrite render_nestedRows in Hr'.
    destruct (negb collapsed && isGroup (row_item r)
              && Js.array_includes (expandedItems st) (id (row_item r)));
      [|destruct Hr'].
    apply in_map_iff in Hr' as (child & <- & _).
    rewrite !render_paddingLeft. lia.
Qed.

(** ** Sequences of toggles and clicks *)

Lemma toggle_includes (i x : string) (prev : list string) :
  Js.array_includes (toggle i prev) x =
  xorb (Js.array_includes prev x) (String.eqb i x).
Proof.
  apply eq_true_iff_eq. rewrite array_includes_iff, In_toggle.
  destruct (String.eqb_spec i x) as [->|Hne].
  - destruct (Js.array_includes prev x) eqn:E; cbn.
    + apply array_includes_iff in E. split; [tauto | discriminate].
    + apply array_includes_false_iff in E. split; [reflexivity | tauto].
  - rewrite xorb_false_r, array_includes_iff.
    split; [intros [[-> _]|[_ H]]; [congruence | assumption] | intros H; right; split; congruence].
Qed.

(** X6: expanding or collapsing two entries in either order comes to the
    same: every id has the same membership in the expanded-set and the
    panel renders the same, for every collection and display mode. *)
Theorem toggleExpanded_commute (st : SidebarState) (a b : string) :
  let st1 := toggleExpanded a (toggleExpanded b st) in
  let st2 := toggleExpanded b (toggleExpanded a st) in
  (forall x, Js.array_includes (expandedItems st1) x =
             Js.array_includes (expandedItems st2) x) /\
  (forall items collapsed, Sidebar items collapsed st1 = Sidebar items collapsed st2).
Proof.
  cbn zeta.
  assert (H : forall x,
             Js.array_includes (expandedItems (toggleExpanded a (toggleExpanded b st))) x =
             Js.array_includes (expandedItems (toggleExpanded b (toggleExpanded a st))) x).
  { intros x. cbn [toggleExpanded expandedItems]. rewrite !toggle_includes.
    now destruct (Js.array_includes (expandedItems st) x),
                 (String.eqb a x), (String.eqb b x). }
  split; [exact H|]. intros items collapsed.
  exact (Sidebar_ext items collapsed _ _ (searchQuery st) H).
Qed.

Lemma runClicks_cons (item : SidebarItem) (rest : list SidebarItem)
  (st : SidebarState) :
  runClicks (item :: rest) st =
  (fst (runClicks rest (fst (handleClick item st))),
   snd (handleClick item st) ++ snd (runClicks rest (fst (handleClick item st)))).
Proof.
  cbn [runClicks]. destruct (handleClick item st) as [st1 fired].
  cbn [fst snd]. now destruct (runClicks rest st1).
Qed.

(** X7: what a sequence of row clicks leaves behind.  An id is in the
    expanded-set afterwards exactly when its membership before, flipped
    once per click on a group entry carrying this id, says so: from the
    initial state, exactly when the number of such clicks is odd.  The
    callbacks invoked are those of the clicked entries that are not groups,
    in click order, and the filter text is unchanged. *)
Theorem runClicks_parity (clicks : list SidebarItem) (st : SidebarState) :
  let hits x := List.length (filter (fun item => isGroup item && String.eqb (id item) x) clicks) in
  (forall x, Js.array_includes (expandedItems (fst (runClicks clicks st))) x =
             xorb (Js.array_includes (expandedItems st) x) (Nat.odd (hits x))) /\
  (forall x, Js.array_includes
               (expandedItems (fst (runClicks clicks initialState))) x =
             Nat.odd (hits x)) /\
  snd (runClicks clicks st) =
  flat_map (fun item => if isGroup item then [] else invoke (onClick item)) clicks /\
  searchQuery (fst (runClicks clicks st)) = searchQuery st.
Proof.
  cbv beta zeta.
  assert (Hgen : forall st0 x,
             Js.array_includes (expandedItems (fst (runClicks clicks st0))) x =
             xorb (Js.array_includes (expandedItems st0) x)
                  (Nat.odd (List.length
                              (filter (fun item => isGroup item && String.eqb (id item) x)
                                      clicks)))).
  { induction clicks as [|item rest IH]; intros st0 x.
    - cbn. now rewrite xorb_false_r.
    - rewrite runClicks_cons. cbn [fst filter]. rewrite IH.
      unfold handleClick, isGroup. destruct (children item) as [cs|]; cbn [fst andb].
      + cbn [toggleExpanded expandedItems]. rewrite toggle_includes.
        destruct (String.eqb (id item) x); cbn [List.length].
        * rewrite Nat.odd_succ, <- Nat.negb_odd.
          now destruct (Js.array_includes (expandedItems st0) x), (Nat.odd _).
        * now rewrite xorb_false_r.
      + reflexivity. }
  split; [apply Hgen|]. split; [intros x; now rewrite Hgen|]. split.
  - clear Hgen. revert st. induction clicks as [|item rest IH]; intros st; [reflexivity|].
    rewrite runClicks_cons. cbn [snd flat_map]. rewrite IH.
    unfold handleClick, isGroup. now destruct (children item).
  - clear Hgen. revert st. induction clicks as [|item rest IH]; intros st; [reflexivity|].
    rewrite runClicks_cons. cbn [fst]. rewrite IH.
    unfold handleClick. now destruct (children item).
Qed.

(** * The sidebar inside the page *)







(** ** Keys of the top-level rows *)

(** Keys that are distinct stay distinct when entries are filtered out. *)
Lemma NoDup_map_filter {K E : Type} (keyOf : E -> K) (keep : E -> bool)
  (entries : list E) (Hnd : NoDup (map keyOf entries)) :
  NoDup (map keyOf (filter keep entries)).
Proof.
  induction entries as [|x l IH]; cbn; [constructor|].
  cbn in Hnd. apply NoDup_cons_iff in Hnd as [Hx Hl].
  destruct (keep x); cbn; [|now apply IH].
  constructor; [|now apply IH].
  intros Hin. apply Hx. apply in_map_iff in Hin as (y & E0 & Hy).
  apply filter_In in Hy as [Hy _]. apply in_map_iff. now exists y.
Qed.

Lemma NoDup_map_inj {A B : Type} (f : A -> B) (l : list A) (a b : A) :
  NoDup (map f l) -> In a l -> In b l -> f a = f b -> a = b.
Proof.
  induction l as [|x l IH]; cbn; [easy|].
  intros H. apply NoDup_cons_iff in H as [Hx Hl].
  intros [->|Ha] [->|Hb] E; try reflexivity.
  - elim Hx. rewrite E. now apply in_map.
  - elim Hx. rewrite <- E. now apply in_map.
  - now apply IH.
Qed.

Lemma NoDup_flat_map_disjoint {A B : Type} (f : A -> list B) (l : list A) :
  (forall a, In a l -> NoDup (f a)) ->
  NoDup l ->
  (forall a b x, In a l -> In b l -> In x (f a) -> In x (f b) -> a = b) ->
  NoDup (flat_map f l).
Proof.
  intros Hf Hl. induction Hl as [|a l Ha Hl IH]; intros Hd; cbn; [constructor|].
  apply NoDup_app.
  - apply Hf. now left.
  - apply IH.
    + intros b Hb. apply Hf. now right.
    + intros b c x Hb Hc. apply Hd; now right.
  - intros x Hx Hx'. apply in_flat_map in Hx' as (b & Hb & Hxb).
    assert (a = b) by (apply (Hd a b x); [now left | now right | assumption..]).
    subst b. contradiction.
Qed.

Lemma map_key_render (collapsed : bool) (e : list string) (level : nat)
  (l : list SidebarItem) :
  map key (map (renderSidebarItem collapsed e level) l) = map id l.
Proof.
  rewrite map_map. apply map_ext. intros item. now destruct item.
Qed.

Lemma top_row_keys (items : list SidebarItem) (collapsed : bool)
  (st : SidebarState) :
  map key (flat_map rows (groups (Sidebar items collapsed st))) =
  flat_map (fun c => map id (filter (inCategory c)
                                    (filteredItems items (searchQuery st))))
           (categories items).
Proof.
  unfold Sidebar. cbn [groups]. induction (categories items) as [|c cs IH].
  - reflexivity.
  - cbn [map flat_map rows]. now rewrite map_app, IH, map_key_render.
Qed.

(** X9: with ids unique at the top level of the collection, no two rows
    directly under the headings carry the same key, whatever the filter
    text and the display mode: an entry never gets a row under two
    headings or twice under one. *)
Theorem top_row_keys_unique (items : list SidebarItem) (collapsed : bool)
  (st : SidebarState) :
  NoDup (map id items) ->
  NoDup (map key (flat_map rows (groups (Sidebar items collapsed st)))).
Proof.
  intros Hnd. rewrite top_row_keys. apply NoDup_flat_map_disjoint.
  - intros c _. unfold filteredItems. now do 2 apply NoDup_map_filter.
  - apply categories_NoDup.
  - intros a b x _ _ Ha Hb.
    apply in_map_iff in Ha as (ia & Ea & Hia), Hb as (ib & Eb & Hib).
    apply filter_In in Hia as [Hia Hca], Hib as [Hib Hcb].
    apply filter_In in Hia as [Hia _], Hib as [Hib _].
    assert (ia = ib) by (apply (NoDup_map_inj id items); congruence).
    subst ib. apply inCategory_iff in Hca, Hcb. congruence.
Qed.

Lemma top_row_keys_unique_witness :
  NoDup (map id scenarioItems) /\
  NoDup (map key (flat_map rows (groups (Sidebar scenarioItems false scenarioState)))).
Proof.
  assert (H : NoDup (map id scenarioItems)).
  { cbn. repeat constructor; cbn; intuition discriminate. }
  split; [exact H | exact (top_row_keys_unique scenarioItems false scenarioState H)].
Defined.

(** ** Selecting an entry of the page *)

Lemma combine_seq_nth {A : Type} (l : list A) (a k : nat) (x : A) :
  In (k, x) (combine (seq a (List.length l)) l) ->
  a <= k /\ nth_error l (k - a) = Some x.
Proof.
  revert a; induction l as [|y l IH]; intros a; cbn; [easy|].
  intros [[= <- <-]|H].
  - split; [lia | now rewrite Nat.sub_diag].
  - apply IH in H as [Hle H]. split; [lia|].
    replace (k - a) with (S (k - S a)) by lia. exact H.
Qed.

Lemma App_item_inv (st : App.AppState) (item : SidebarItem) :
  In item (App.sidebarItems st) ->
  exists k i l c,
    nth_error App.entries k = Some (i, l, c) /\
    item = App.mkItem st k (i, l, c).
Proof.
  unfold App.sidebarItems. intros H.
  apply in_map_iff in H as ([k [[i l] c]] & <- & H).
  apply combine_seq_nth in H as [_ H]. rewrite Nat.sub_0_r in H.
  now exists k, i, l, c.
Qed.

Lemma App_ids (st : App.AppState) :
  map id (App.sidebarItems st) = map (fun e => fst (fst e)) App.entries.
Proof. reflexivity. Qed.

Lemma App_ids_NoDup (st : App.AppState) : NoDup (map id (App.sidebarItems st)).
Proof.
  rewrite App_ids. cbn. repeat constructor; cbn; intuition discriminate.
Qed.

Lemma App_row_inv (st : App.AppState) (sb : SidebarState) (g : Group) (r : Row) :
  In g (groups (App.sidebar st sb)) -> In r (rows g) ->
  exists k i l c,
    nth_error App.entries k = Some (i, l, c) /\
    r = renderSidebarItem (App.sidebarCollapsed st) (expandedItems sb) 0
                          (App.mkItem st k (i, l, c)).
Proof.
  intros Hg Hr. destruct (group_row_source _ _ _ _ _ Hg Hr) as (E & Hin & _).
  apply filter_In in Hin as [Hin _].
  destruct (App_item_inv st _ Hin) as (k & i & l & c & Hk & Ei).
  exists k, i, l, c. split; [assumption|]. now rewrite <- Ei.
Qed.

Lemma NoDup_all_equal {A : Type} (l : list A) (a : A) :
  NoDup l -> (forall x, In x l -> x = a) -> List.length l <= 1.
Proof.
  intros Hnd H. destruct l as [|x [|y l]]; cbn; try lia.
  apply NoDup_cons_iff in Hnd as [Hx _]. elim Hx.
  rewrite (H x), <- (H y); cbn; tauto.
Qed.

(** X10: selecting an entry in the page.  In the sidebar the page renders,
    a row is highlighted exactly when its key is the active component, so
    at most one row is highlighted; clicking any row makes its entry the
    active component and changes neither the active category, nor the
    display mode, nor the sidebar's own state. *)
Theorem App_selection (st : App.AppState) (sb : SidebarState) :
  let v := App.sidebar st sb in
  (forall g r, In g (groups v) -> In r (rows g) ->
               (highlighted r = true <-> key r = App.activeComponent st)) /\
  List.length (filter highlighted (flat_map rows (groups v))) <= 1 /\
  (forall g r, In g (groups v) -> In r (rows g) ->
               App.clickRow (row_item r) st sb =
               ({| App.activeComponent := key r;
                   App.activeCategory := App.activeCategory st;
                   App.sidebarCollapsed := App.sidebarCollapsed st |}, sb)).
Proof.
  cbn zeta.
  assert (Hhl : forall g r, In g (groups (App.sidebar st sb)) -> In r (rows g) ->
                            (highlighted r = true <-> key r = App.activeComponent st)).
  { intros g r Hg Hr.
    destruct (App_row_inv st sb g r Hg Hr) as (k & i & l & c & _ & ->).
    unfold App.mkItem. cbn [renderSidebarItem highlighted key].
    destruct (String.eqb_spec (App.activeComponent st) i); split; congruence. }
  split; [exact Hhl|]. split.
  - rewrite <- (length_map key).
    apply (NoDup_all_equal _ (App.activeComponent st)).
    + apply NoDup_map_filter. unfold App.sidebar.
      rewrite top_row_keys. apply NoDup_flat_map_disjoint.
      * intros c _. unfold filteredItems, App.filteredSidebarItems.
        do 3 apply NoDup_map_filter. apply App_ids_NoDup.
      * apply categories_NoDup.
      * intros a b x _ _ Ha Hb.
        apply in_map_iff in Ha as (ia & Ea & Hia), Hb as (ib & Eb & Hib).
        apply filter_In in Hia as [Hia Hca], Hib as [Hib Hcb].
        apply filter_In in Hia as [Hia _], Hib as [Hib _].
        apply filter_In in Hia as [Hia _], Hib as [Hib _].
        assert (ia = ib)
          by (apply (NoDup_map_inj id (App.sidebarItems st));
              [apply App_ids_NoDup | assumption | assumption | congruence]).
        subst ib. apply inCategory_iff in Hca, Hcb. congruence.
    + intros x Hx. apply in_map_iff in Hx as (r & <- & Hr).
      apply filter_In in Hr as [Hr Hh].
      apply in_flat_map in Hr as (g & Hg & Hr). now apply (Hhl g r Hg Hr).
  - intros g r Hg Hr.
    destruct (App_row_inv st sb g r Hg Hr) as (k & i & l & c & Hk & ->).
    rewrite render_row_item. unfold App.clickRow, handleClick. cbn.
    unfold App.runCallback. now rewrite Hk.
Qed.

(** * Properties of the other components *)

(** ** Accordion *)

Lemma accordion_click_In (allowMultiple : bool) (item : Accordion.AccordionItem)
  (prev : list string) (x : string) :
  In x (Accordion.handleClick allowMultiple item prev) ->
  In x prev \/ (Accordion.isDisabled item = false /\ x = Accordion.id item).
Proof.
  unfold Accordion.handleClick, Accordion.toggleItem.
  destruct (Accordion.isDisabled item); [now left|].
  destruct allowMultiple, (Js.array_includes prev (Accordion.id item)).
  - intros H. apply filter_In in H. tauto.
  - intros H. apply in_app_or in H as [H|[<-|[]]]; tauto.
  - intros [].
  - intros [<-|[]]. tauto.
Qed.

Lemma accordion_open_panels (items : list Accordion.AccordionItem)
  (openItems : list string) :
  map Accordion.key (filter Accordion.isOpen (Accordion.render items openItems)) =
  map Accordion.id
      (filter (fun item => Js.array_includes openItems (Accordion.id item)) items).
Proof.
  unfold Accordion.render. induction items as [|item items IH]; [reflexivity|].
  cbn [map filter]. unfold Accordion.isOpen at 1. cbn [Accordion.body].
  destruct (Js.array_includes openItems (Accordion.id item)); cbn [map];
    now rewrite IH.
Qed.

(** X11: an accordion that does not allow several open panels.  After a
    click on an enabled header the only panel that can be open is the one
    clicked, and it is open exactly when it was closed before: every other
    panel is closed, also those opened through [defaultOpen].  With unique
    ids at most one body is rendered. *)
Theorem accordion_single_mode (items : list Accordion.AccordionItem)
  (item : Accordion.AccordionItem) (prev : list string) :
  NoDup (map Accordion.id items) ->
  Accordion.isDisabled item = false ->
  let next := Accordion.handleClick false item prev in
  (forall x, In x next <-> x = Accordion.id item /\ ~ In (Accordion.id item) prev) /\
  List.length (filter Accordion.isOpen (Accordion.render items next)) <= 1.
Proof.
  intros Hnd Hen. cbn zeta.
  assert (Hin : forall x, In x (Accordion.handleClick false item prev) <->
                          x = Accordion.id item /\ ~ In (Accordion.id item) prev).
  { intros x. unfold Accordion.handleClick, Accordion.toggleItem. rewrite Hen.
    destruct (Js.array_includes prev (Accordion.id item)) eqn:E.
    - apply array_includes_iff in E. cbn. tauto.
    - apply array_includes_false_iff in E. cbn. intuition congruence. }
  split; [exact Hin|].
  rewrite <- (length_map Accordion.key), accordion_open_panels.
  apply (NoDup_all_equal _ (Accordion.id item)).
  - now apply NoDup_map_filter.
  - intros x Hx. apply in_map_iff in Hx as (it & <- & Hit).
    apply filter_In in Hit as [_ Hit]. apply array_includes_iff in Hit.
    now apply Hin in Hit.
Qed.

Lemma accordion_single_mode_witness :
  let a := {| Accordion.id := "1"; Accordion.title := "One";
              Accordion.content := 0; Accordion.disabled := None |} in
  let b := {| Accordion.id := "2"; Accordion.title := "Two";
              Accordion.content := 1; Accordion.disabled := Some false |} in
  List.length (filter Accordion.isOpen
                      (Accordion.render [a; b]
                                        (Accordion.handleClick false a ["1"; "2"]))) <= 1.
Proof.
  cbv zeta.
  refine (proj2 (accordion_single_mode
                   [ {| Accordion.id := "1"; Accordion.title := "One";
                        Accordion.content := 0; Accordion.disabled := None |};
                     {| Accordion.id := "2"; Accordion.title := "Two";
                        Accordion.content := 1; Accordion.disabled := Some false |} ]
                   {| Accordion.id := "1"; Accordion.title := "One";
                      Accordion.content := 0; Accordion.disabled := None |}
                   ["1"; "2"] _ eq_refl)).
  cbn. repeat constructor; cbn; intuition discriminate.
Defined.

(** X12: what can be open.  After any sequence of header clicks, in either
    mode, a panel id is in the open list only if it was in [defaultOpen] or
    an enabled header carrying it was clicked; clicks on disabled headers
    alone leave the open list exactly as it was. *)
Theorem accordion_opened_by_enabled_clicks (allowMultiple : bool)
  (clicks : list Accordion.AccordionItem) (defaultOpen : list string) :
  (forall x, In x (Accordion.runClicks allowMultiple clicks defaultOpen) ->
             In x defaultOpen \/
             exists item, In item clicks /\ Accordion.isDisabled item = false /\
                          Accordion.id item = x) /\
  (forallb Accordion.isDisabled clicks = true ->
   Accordion.runClicks allowMultiple clicks defaultOpen = defaultOpen).
Proof.
  unfold Accordion.runClicks. split.
  - revert defaultOpen. induction clicks as [|item rest IH]; intros defaultOpen x;
      cbn [fold_left]; [now left|].
    intros H. apply IH in H as [H|(it & Hit & Hd & E)].
    + apply accordion_click_In in H as [H|[Hd ->]]; [now left|].
      right. exists item. cbn. tauto.
    + right. exists it. cbn. tauto.
  - revert defaultOpen. induction clicks as [|item rest IH]; intros defaultOpen;
      cbn [fold_left forallb]; [reflexivity|].
    intros H. apply andb_true_iff in H as [Hd Hrest].
    unfold Accordion.handleClick at 2. rewrite Hd. now apply IH.
Qed.

(** ** Tabs *)

Lemma tabs_find_unique (tab : Tabs.TabItem) (tabs : list Tabs.TabItem) :
  In tab tabs -> NoDup (map Tabs.id tabs) ->
  find (Tabs.isActive (Tabs.clickTab tab)) tabs = Some tab.
Proof.
  induction tabs as [|t tabs IH]; cbn [In map find]; [easy|].
  intros Hin Hnd. apply NoDup_cons_iff in Hnd as [Ht Hnd].
  unfold Tabs.isActive at 1, Tabs.clickTab at 1.
  destruct (String.eqb_spec (Tabs.id tab) (Tabs.id t)) as [E|Hne].
  - destruct Hin as [->|Hin]; [reflexivity|].
    elim Ht. rewrite <- E. now apply in_map.
  - destruct Hin as [->|Hin]; [congruence | now apply IH].
Qed.

(** X13: choosing a tab.  With unique tab ids, after a click on a tab of
    the bar the panel shows the content of that tab, and that tab's button
    is the only one highlighted. *)
Theorem tabs_click_shows (tab : Tabs.TabItem) (tabs : list Tabs.TabItem) :
  In tab tabs -> NoDup (map Tabs.id tabs) ->
  Tabs.shownContent (Tabs.clickTab tab) tabs = Some (Tabs.content tab) /\
  (forall t, In t tabs -> (Tabs.isActive (Tabs.clickTab tab) t = true <-> t = tab)).
Proof.
  intros Hin Hnd. split.
  - unfold Tabs.shownContent. now rewrite (tabs_find_unique tab tabs Hin Hnd).
  - intros t Ht. unfold Tabs.isActive, Tabs.clickTab. rewrite String.eqb_eq. split.
    + intros E. symmetry. now apply (NoDup_map_inj Tabs.id tabs).
    + now intros ->.
Qed.

Lemma tabs_click_shows_witness :
  let a := {| Tabs.id := "a"; Tabs.label := "A"; Tabs.content := 0 |} in
  let b := {| Tabs.id := "b"; Tabs.label := "B"; Tabs.content := 1 |} in
  Tabs.shownContent (Tabs.clickTab b) [a; b] = Some 1.
Proof.
  cbv zeta.
  refine (proj1 (tabs_click_shows
                   {| Tabs.id := "b"; Tabs.label := "B"; Tabs.content := 1 |}
                   [ {| Tabs.id := "a"; Tabs.label := "A"; Tabs.content := 0 |};
                     {| Tabs.id := "b"; Tabs.label := "B"; Tabs.content := 1 |} ]
                   _ _)).
  - cbn. tauto.
  - cbn. repeat constructor; cbn; intuition discriminate.
Defined.


(** ** Pagination *)

Lemma pages_In (totalPages p : Z) :
  In p (Pagination.pages totalPages) <-> (1 <= p <= totalPages)%Z.
Proof.
  unfold Pagination.pages. rewrite in_map_iff. split.
  - intros (i & <- & Hi). apply in_seq in Hi. lia.
  - intros H. exists (Z.to_nat (p - 1)). split; [lia|]. apply in_seq. lia.
Qed.

Lemma pages_count (n : nat) (p : Z) :
  List.length (filter (fun page => (page =? p)%Z)
                      (map (fun i => (Z.of_nat i + 1)%Z) (seq 0 n))) =
  if ((1 <=? p) && (p <=? Z.of_nat n))%Z then 1 else 0.
Proof.
  induction n as [|n IH].
  - cbn. destruct (1 <=? p)%Z eqn:E1, (p <=? 0)%Z eqn:E2; cbn; lia.
  - rewrite seq_S, map_app, filter_app, length_app, IH. cbn [map filter plus].
    destruct (Z.eqb_spec (Z.of_nat n + 1) p) as [E|E]; cbn [List.length];
      destruct (Z.leb_spec 1 p), (Z.leb_spec p (Z.of_nat n)),
               (Z.leb_spec p (Z.of_nat (S n))); cbn [andb]; lia.
Qed.

(** X15: the page buttons.  For an integer [totalPages] below 2^32 the
    component renders Previous, the numbered buttons and Next; the
    numbered buttons are exactly the pages from 1 to [totalPages] (none
    when [totalPages] is zero or negative), and the number of highlighted
    buttons is one when the current page is among them and zero
    otherwise.  From 2^32 on, building the page list throws and nothing is
    rendered. *)
Theorem pagination_buttons (currentPage totalPages : Z) :
  ((totalPages < 4294967296)%Z ->
   exists buttons,
     Pagination.render totalPages = Some buttons /\
     (forall p, In (Pagination.PageButton p) buttons <->
                (1 <= p <= totalPages)%Z) /\
     List.length (filter (Pagination.isCurrent currentPage) buttons) =
     (if ((1 <=? currentPage) && (currentPage <=? totalPages))%Z then 1 else 0)) /\
  ((4294967296 <= totalPages)%Z -> Pagination.render totalPages = None).
Proof.
  split.
  - intros Hlt. exists (Pagination.controls totalPages). split.
    { unfold Pagination.render, Js.array_from_length.
      destruct (Z.ltb_spec totalPages 4294967296); [reflexivity | lia]. }
    split.
    + intros p. unfold Pagination.controls. rewrite <- pages_In. cbn [In].
      rewrite in_app_iff, in_map_iff. cbn [In]. split.
      * intros [H|[(q & [= <-] & Hq)|[H|[]]]]; try discriminate. assumption.
      * intros H. right. left. now exists p.
    + unfold Pagination.controls. cbn [filter Pagination.isCurrent].
      rewrite filter_app. cbn [filter Pagination.isCurrent]. rewrite app_nil_r.
      assert (E : filter (Pagination.isCurrent currentPage)
                         (map Pagination.PageButton (Pagination.pages totalPages)) =
                  map Pagination.PageButton
                      (filter (fun page => (page =? currentPage)%Z)
                              (Pagination.pages totalPages))).
      { induction (Pagination.pages totalPages) as [|q l IH]; [reflexivity|].
        cbn [map filter Pagination.isCurrent].
        destruct (q =? currentPage)%Z; cbn [map]; now rewrite IH. }
      rewrite E, length_map. unfold Pagination.pages. rewrite pages_count.
      destruct (Z.leb_spec 1 currentPage),
               (Z.leb_spec currentPage (Z.of_nat (Z.to_nat totalPages))),
               (Z.leb_spec currentPage totalPages); cbn [andb]; lia.
  - intros Hge. unfold Pagination.render, Js.array_from_length.
    destruct (Z.ltb_spec totalPages 4294967296); [lia | reflexivity].
Qed.

Lemma pagination_buttons_witness :
  exists buttons,
    Pagination.render 10 = Some buttons /\
    (forall p, In (Pagination.PageButton p) buttons <-> (1 <= p <= 10)%Z) /\
    List.length (filter (Pagination.isCurrent 4) buttons) = 1.
Proof. refine (proj1 (pagination_buttons 4 10) _). lia. Defined.

Lemma pagination_click_range (currentPage totalPages : Z) (c : Pagination.Control)
  (p : Z) :
  (1 <= currentPage <= totalPages)%Z ->
  In c (Pagination.controls totalPages) ->
  In p (Pagination.click currentPage totalPages c) ->
  (1 <= p <= totalPages)%Z.
Proof.
  intros Hr Hc. unfold Pagination.click, Pagination.isDisabled.
  destruct c as [|q|].
  - destruct (Z.eqb_spec currentPage 1); cbn; [easy|]. intros [<-|[]]. lia.
  - cbn. intros [<-|[]]. apply pages_In. unfold Pagination.controls in Hc.
    cbn [In] in Hc. destruct Hc as [Hc|Hc]; [discriminate|].
    apply in_app_or in Hc as [Hc|[Hc|[]]]; [|discriminate].
    now apply in_map_iff in Hc as (q' & [= <-] & Hq).
  - destruct (Z.eqb_spec currentPage totalPages); cbn; [easy|]. intros [<-|[]]. lia.
Qed.

(** X16: the current page stays in range.  When the current page lies
    between 1 and [totalPages], every page a click on a rendered button
    passes to [onPageChange] lies between 1 and [totalPages] too; so in
    the page, which stores what it is passed, no sequence of clicks takes
    the current page out of range. *)
Theorem pagination_stays_in_range (totalPages currentPage : Z)
  (clicks : list Pagination.Control) :
  (1 <= currentPage <= totalPages)%Z ->
  Forall (fun c => In c (Pagination.controls totalPages)) clicks ->
  (forall c p, In c (Pagination.controls totalPages) ->
               In p (Pagination.click currentPage totalPages c) ->
               (1 <= p <= totalPages)%Z) /\
  (1 <= fold_left (Pagination.clickInPage totalPages) clicks currentPage
   <= totalPages)%Z.
Proof.
  intros Hr Hc. split.
  - intros c p. now apply pagination_click_range.
  - revert currentPage Hr. induction Hc as [|c clicks Hin _ IH]; intros cp Hr;
      cbn [fold_left]; [assumption|].
    apply IH. unfold Pagination.clickInPage.
    pose proof (pagination_click_range cp totalPages c) as Hp.
    destruct (Pagination.click cp totalPages c) as [|p [|p' l]] eqn:E; cbn.
    + assumption.
    + apply Hp; [assumption | assumption | now left].
    + unfold Pagination.click in E.
      destruct (Pagination.isDisabled cp totalPages c); [discriminate|].
      destruct c; discriminate.
Qed.

Lemma pagination_stays_in_range_witness :
  (1 <= fold_left (Pagination.clickInPage 10)
                  [Pagination.Next; Pagination.PageButton 10; Pagination.Next;
                   Pagination.Previous] 1
   <= 10)%Z.
Proof.
  refine (proj2 (pagination_stays_in_range 10 1
                   [Pagination.Next; Pagination.PageButton 10; Pagination.Next;
                    Pagination.Previous] _ _)).
  - lia.
  - repeat constructor; cbn; tauto.
Defined.

(** ** Carousel *)

Lemma carousel_next_value (len i : nat) :
  i < len ->
  Carousel.goToNext len (Some (Z.of_nat i)) = Some (Z.of_nat (S i mod len)).
Proof.
  intros H. unfold Carousel.goToNext, Carousel.rem, Carousel.add. cbn [option_map].
  destruct (Z.eqb_spec (Z.of_nat len) 0); [lia|]. f_equal.
  rewrite Z.rem_mod_nonneg by lia. rewrite Nat2Z.inj_mod. f_equal. lia.
Qed.

Lemma carousel_prev_value (len i : nat) :
  i < len ->
  Carousel.goToPrev len (Some (Z.of_nat i)) = Some (Z.of_nat ((i + len - 1) mod len)).
Proof.
  intros H. unfold Carousel.goToPrev, Carousel.rem, Carousel.add. cbn [option_map].
  destruct (Z.eqb_spec (Z.of_nat len) 0); [lia|]. f_equal.
  rewrite Z.rem_mod_nonneg by lia. rewrite Nat2Z.inj_mod. f_equal. lia.
Qed.




Lemma carousel_iter_next (len i k : nat) :
  i < len ->
  Nat.iter k (Carousel.goToNext len) (Some (Z.of_nat i)) =
  Some (Z.of_nat ((i + k) mod len)).
Proof.
  intros Hi. induction k as [|k IH].
  - cbn. now rewrite Nat.add_0_r, Nat.mod_small.
  - rewrite Nat.iter_succ, IH, carousel_next_value
      by (apply Nat.mod_upper_bound; lia).
    do 2 f_equal. replace (i + S k) with (S (i + k)) by lia.
    replace (S ((i + k) mod len)) with (1 + (i + k) mod len) by lia.
    replace (S (i + k)) with (1 + (i + k)) by lia.
    now rewrite Nat.Div0.add_mod_idemp_r.
Qed.

(** X18: Previous and Next undo each other and Next goes round.  On a
    slide index, Next followed by Previous, and Previous followed by Next,
    come back to the same slide (from the last slide Next wraps to the
    first, from the first Previous wraps to the last), and as many Next
    clicks as there are slides come back to the slide they started from. *)
Theorem carousel_wraps (len i : nat) :
  i < len ->
  Carousel.goToPrev len (Carousel.goToNext len (Some (Z.of_nat i))) =
  Some (Z.of_nat i) /\
  Carousel.goToNext len (Carousel.goToPrev len (Some (Z.of_nat i))) =
  Some (Z.of_nat i) /\
  Carousel.goToNext len (Some (Z.of_nat (len - 1))) = Some 0%Z /\
  Carousel.goToPrev len (Some 0%Z) = Some (Z.of_nat (len - 1)) /\
  Nat.iter len (Carousel.goToNext len) (Some (Z.of_nat i)) = Some (Z.of_nat i).
Proof.
  intros Hi.
  assert (Hs : S i mod len < len) by (apply Nat.mod_upper_bound; lia).
  assert (Hp : (i + len - 1) mod len < len) by (apply Nat.mod_upper_bound; lia).
  repeat split.
  - rewrite carousel_next_value, carousel_prev_value by assumption.
    do 2 f_equal. destruct (Nat.eq_dec (S i) len) as [E|E].
    + rewrite E, Nat.Div0.mod_same. cbn [plus]. rewrite Nat.mod_small; lia.
    + rewrite (Nat.mod_small (S i)) by lia.
      replace (S i + len - 1) with (i + 1 * len) by lia.
      rewrite Nat.Div0.mod_add. apply Nat.mod_small. lia.
  - rewrite carousel_prev_value, carousel_next_value by assumption.
    do 2 f_equal. destruct i as [|i].
    + cbn [plus]. rewrite (Nat.mod_small (len - 1)) by lia.
      replace (S (len - 1)) with len by lia. apply Nat.Div0.mod_same.
    + replace (S i + len - 1) with (i + 1 * len) by lia.
      rewrite Nat.Div0.mod_add, (Nat.mod_small i) by lia. apply Nat.mod_small. lia.
  - rewrite carousel_next_value by lia.
    replace (S (len - 1)) with len by lia. now rewrite Nat.Div0.mod_same.
  - change (Some 0%Z) with (Some (Z.of_nat 0)).
    rewrite carousel_prev_value by lia. do 2 f_equal.
    cbn [plus]. apply Nat.mod_small. lia.
  - rewrite carousel_iter_next by assumption. do 2 f_equal.
    replace (i + len) with (i + 1 * len) by lia.
    rewrite Nat.Div0.mod_add. now apply Nat.mod_small.
Qed.

Lemma carousel_wraps_witness :
  Nat.iter 4 (Carousel.goToNext 4) (Some (Z.of_nat 2)) = Some (Z.of_nat 2).
Proof.
  refine (proj2 (proj2 (proj2 (proj2 (carousel_wraps 4 2 _))))). lia.
Defined.

(** ** Rating *)

Lemma stars_prefix (value : Z) (n : nat) :
  map (fun i => (Z.of_nat i <? value)%Z) (seq 0 n) =
  repeat true (Nat.min (Z.to_nat value) n) ++ repeat false (n - Z.to_nat value).
Proof.
  induction n as [|n IH].
  - now rewrite Nat.min_0_r.
  - rewrite seq_S, map_app, IH. cbn [plus map].
    destruct (Z.ltb_spec (Z.of_nat n) value) as [Hlt|Hge].
    + replace (Nat.min (Z.to_nat value) n) with n by lia.
      replace (Nat.min (Z.to_nat value) (S n)) with (S n) by lia.
      replace (n - Z.to_nat value) with 0 by lia.
      replace (S n - Z.to_nat value) with 0 by lia.
      cbn [repeat]. rewrite !app_nil_r. now rewrite <- repeat_cons.
    + replace (Nat.min (Z.to_nat value) (S n)) with (Nat.min (Z.to_nat value) n) by lia.
      replace (S n - Z.to_nat value) with (S (n - Z.to_nat value)) by lia.
      rewrite <- app_assoc. f_equal. now rewrite <- repeat_cons.
Qed.

(** X19: the stars.  For an integer value and an integer [max] below
    2^32 the filled stars come first, and their number is the value
    clamped between zero and [max]; from 2^32 on, building the stars
    throws and nothing is rendered.  A click on star [i] of an editable
    rating reports [i + 1], and a rating showing that value has exactly
    the stars up to and including the clicked one filled; a read-only
    rating reports nothing. *)
Theorem rating_stars (value max : Z) (i : nat) :
  ((max < 4294967296)%Z ->
   Rating.stars value max =
   Some (repeat true (Nat.min (Z.to_nat value) (Z.to_nat max)) ++
         repeat false (Z.to_nat max - Z.to_nat value))) /\
  ((4294967296 <= max)%Z -> Rating.stars value max = None) /\
  (forall hasOnChange, Rating.click true hasOnChange i = []) /\
  Rating.click false true i = [(Z.of_nat i + 1)%Z] /\
  ((Z.of_nat i < max < 4294967296)%Z ->
   Rating.stars (Z.of_nat i + 1) max =
   Some (repeat true (S i) ++ repeat false (Z.to_nat max - S i))).
Proof.
  assert (Hsome : forall v, (max < 4294967296)%Z ->
             Rating.stars v max =
             Some (repeat true (Nat.min (Z.to_nat v) (Z.to_nat max)) ++
                   repeat false (Z.to_nat max - Z.to_nat v))).
  { intros v H. unfold Rating.stars, Js.array_from_length.
    destruct (Z.ltb_spec max 4294967296); [|lia]. now rewrite stars_prefix. }
  split; [apply Hsome|]. split.
  { intros H. unfold Rating.stars, Js.array_from_length.
    destruct (Z.ltb_spec max 4294967296); [lia | reflexivity]. }
  split; [reflexivity|]. split; [reflexivity|].
  intros Hi. rewrite Hsome by lia.
  replace (Z.to_nat (Z.of_nat i + 1)) with (S i) by lia.
  now replace (Nat.min (S i) (Z.to_nat max)) with (S i) by lia.
Qed.

Lemma rating_stars_witness :
  Rating.stars 3 5 = Some [true; true; true; false; false].
Proof.
  refine (proj1 (rating_stars 3 5 0) _). reflexivity.
Defined.

(** ** Masonry *)

Lemma pushAt_Some {A : Type} (cols : list (list A)) (k : nat) (x : A) :
  k < List.length cols ->
  exists cols',
    Masonry.pushAt cols k x = Some cols' /\
    List.length cols' = List.length cols /\
    forall k', nth k' cols' [] =
               if Nat.eqb k' k then nth k cols [] ++ [x] else nth k' cols [].
Proof.
  revert k; induction cols as [|col rest IH]; intros k Hk; cbn in Hk; [lia|].
  destruct k as [|k]; cbn [Masonry.pushAt].
  - eexists. split; [reflexivity|]. split; [reflexivity|].
    intros [|k']; reflexivity.
  - destruct (IH k ltac:(lia)) as (rest' & -> & Hlen & Hnth).
    eexists. split; [reflexivity|]. split; [cbn; lia|].
    intros [|k']; [reflexivity|]. cbn [nth]. rewrite Hnth.
    now destruct (Nat.eqb_spec k' k), (Nat.eqb_spec (S k') (S k)); try lia.
Qed.

Lemma masonry_index (columns : Z) (index : nat) :
  (0 < columns)%Z ->
  Z.to_nat (Z.rem (Z.of_nat index) columns) = index mod Z.to_nat columns.
Proof.
  intros H. rewrite Z.rem_mod_nonneg by lia.
  rewrite <- (Z2Nat.id columns) at 1 by lia.
  now rewrite <- Nat2Z.inj_mod, Nat2Z.id.
Qed.

Lemma masonry_step {A : Type} (n : nat) (done : list A) (cols cols' : list (list A))
  (child : A) :
  0 < n ->
  masonryPlaced n done cols ->
  List.length cols' = List.length cols ->
  (forall k', nth k' cols' [] =
              if Nat.eqb k' (List.length done mod n)
              then nth (List.length done mod n) cols [] ++ [child]
              else nth k' cols []) ->
  masonryPlaced n (done ++ [child]) cols'.
Proof.
  intros Hn [Hlen Hinv] Hlen' Hnth. split; [congruence|].
  intros k j Hk. rewrite Hnth, length_app. cbn [List.length].
  set (m := List.length done) in *.
  pose proof (Nat.div_mod_eq m n) as Hdm.
  pose proof (Nat.mod_upper_bound m n ltac:(lia)) as Hk0.
  set (k0 := m mod n) in *. set (q := m / n) in *.
  assert (Hcol : List.length (nth k0 cols []) = q).
  { destruct (Nat.lt_trichotomy (List.length (nth k0 cols [])) q) as [Hlt|[E|Hgt]].
    - exfalso.
      pose proof (Hinv k0 (List.length (nth k0 cols [])) Hk0) as H.
      rewrite (proj2 (nth_error_None _ _)) in H by lia.
      destruct (Nat.ltb_spec (List.length (nth k0 cols []) * n + k0) m) as [Hb|Hb]; [|nia].
      symmetry in H. apply nth_error_None in H. fold m in H. lia.
    - exact E.
    - exfalso. pose proof (Hinv k0 q Hk0) as H.
      destruct (Nat.ltb_spec (q * n + k0) m) as [Hb|Hb]; [nia|].
      apply nth_error_None in H. lia. }
  destruct (Nat.eqb_spec k k0) as [->|Hne].
  - destruct (Nat.lt_trichotomy j q) as [Hlt|[->|Hgt]].
    + rewrite nth_error_app1 by lia. rewrite Hinv by assumption.
      destruct (Nat.ltb_spec (j * n + k0) m) as [Hb|Hb]; [|nia].
      destruct (Nat.ltb_spec (j * n + k0) (m + 1)) as [Hb'|Hb']; [|lia].
      now rewrite nth_error_app1 by (fold m; lia).
    + rewrite nth_error_app2 by lia. rewrite Hcol, Nat.sub_diag.
      destruct (Nat.ltb_spec (q * n + k0) (m + 1)) as [Hb'|Hb']; [|nia].
      rewrite nth_error_app2 by (fold m; nia). fold m.
      replace (q * n + k0 - m) with 0 by nia. reflexivity.
    + rewrite (proj2 (nth_error_None _ _)) by (rewrite length_app; cbn; lia).
      destruct (Nat.ltb_spec (j * n + k0) (m + 1)) as [Hb'|Hb']; [nia | reflexivity].
  - rewrite Hinv by assumption.
    assert (Hm : j * n + k <> m).
    { intros E. apply Hne. unfold k0. apply (Nat.mod_unique m n j k); lia. }
    destruct (Nat.ltb_spec (j * n + k) m) as [Hb|Hb],
             (Nat.ltb_spec (j * n + k) (m + 1)) as [Hb'|Hb']; try lia.
    + now rewrite nth_error_app1 by (fold m; lia).
    + reflexivity.
Qed.

Lemma masonry_distribute {A : Type} (columns : Z) (rest done : list A)
  (cols : list (list A)) :
  (0 < columns)%Z ->
  masonryPlaced (Z.to_nat columns) done cols ->
  exists cols',
    Masonry.distribute columns cols (List.length done) rest = Some cols' /\
    masonryPlaced (Z.to_nat columns) (done ++ rest) cols'.
Proof.
  intros Hc. revert done cols. induction rest as [|child rest IH]; intros done cols Hinv.
  - exists cols. split; [reflexivity | now rewrite app_nil_r].
  - cbn [Masonry.distribute]. destruct (Z.eqb_spec columns 0); [lia|].
    rewrite masonry_index by assumption.
    destruct Hinv as [Hlen Hinv].
    destruct (pushAt_Some cols (List.length done mod Z.to_nat columns) child)
      as (cols1 & -> & Hlen1 & Hnth1).
    { rewrite Hlen. apply Nat.mod_upper_bound. lia. }
    assert (Hstep : masonryPlaced (Z.to_nat columns) (done ++ [child]) cols1)
      by (apply (masonry_step _ done cols); [lia | now split | assumption..]).
    destruct (IH (done ++ [child]) cols1 Hstep) as (cols' & Hd & Hinv').
    rewrite length_app in Hd. cbn [List.length] in Hd.
    replace (List.length done + 1) with (S (List.length done)) in Hd by lia.
    exists cols'. split; [exact Hd|]. now rewrite <- app_assoc in Hinv'.
Qed.

(** X20: how the masonry fills its columns.  With a positive integer
    number of columns below 2^32 the component renders exactly that many
    columns, and column
    [k] holds, from top to bottom, the children at the positions [k],
    [k + columns], [k + 2 columns], and so on: every child is in exactly
    one column and keeps its order within it.  From 2^32 columns on,
    building the columns throws. *)
Theorem masonry_layout {A : Type} (columns : Z) (children : list A) :
  ((0 < columns < 4294967296)%Z ->
   exists cols,
     Masonry.Masonry columns children = Some cols /\
     List.length cols = Z.to_nat columns /\
     forall k j, k < Z.to_nat columns ->
       nth_error (nth k cols []) j = nth_error children (j * Z.to_nat columns + k)) /\
  ((4294967296 <= columns)%Z -> Masonry.Masonry columns children = None).
Proof.
  split.
  - intros Hc. unfold Masonry.Masonry, Js.array_from_length.
    destruct (Z.ltb_spec columns 4294967296); [|lia].
    assert (H0 : masonryPlaced (Z.to_nat columns) (@nil A)
                               (repeat [] (Z.to_nat columns))).
    { split; [apply repeat_length|]. intros k j _. cbn [List.length].
      rewrite nth_repeat. now destruct j. }
    destruct (masonry_distribute columns children [] _ ltac:(lia) H0)
      as (cols & Hd & Hlen & Hinv).
    exists cols. split; [exact Hd|]. split; [exact Hlen|].
    intros k j Hk. cbn [app] in Hinv. rewrite Hinv by assumption.
    destruct (Nat.ltb_spec (j * Z.to_nat columns + k) (List.length children));
      [reflexivity|].
    symmetry. now apply nth_error_None.
  - intros Hc. unfold Masonry.Masonry, Js.array_from_length.
    destruct (Z.ltb_spec columns 4294967296); [lia | reflexivity].
Qed.

Lemma masonry_layout_witness :
  exists cols,
    Masonry.Masonry 3 [10; 11; 12; 13; 14] = Some cols /\
    List.length cols = Z.to_nat 3 /\
    forall k j, k < Z.to_nat 3 ->
      nth_error (nth k cols []) j = nth_error [10; 11; 12; 13; 14] (j * Z.to_nat 3 + k).
Proof. refine (proj1 (masonry_layout 3 [10; 11; 12; 13; 14]) _). lia. Defined.

(** X21: a masonry without columns.  When the number of columns is zero or
    negative the component renders no column if it has no children, and
    throws on its first child otherwise. *)
Theorem masonry_no_columns {A : Type} (columns : Z) (child : A) (rest : list A) :
  (columns <= 0)%Z ->
  Masonry.Masonry columns (@nil A) = Some [] /\
  Masonry.Masonry columns (child :: rest) = None.
Proof.
  intros H. unfold Masonry.Masonry, Js.array_from_length.
  destruct (Z.ltb_spec columns 4294967296); [|lia].
  replace (Z.to_nat columns) with 0 by lia. cbn [repeat Masonry.distribute].
  split; [reflexivity|]. now destruct (columns =? 0)%Z.
Qed.

Lemma masonry_no_columns_witness :
  Masonry.Masonry 0 (@nil nat) = Some [] /\ Masonry.Masonry 0 [7; 8] = None.
Proof. refine (masonry_no_columns 0 7 [8] _). lia. Defined.

(** ** Tree *)

Lemma spread_set_In (xs : list string) (x : string) :
  In x (Js.spread_set xs) <-> In x xs.
Proof. unfold Js.spread_set. rewrite fold_set_add_In. cbn. tauto. Qed.

Lemma toggleNode_includes (i x : string) (prev : list string) :
  Js.array_includes (Tree.toggleNode i prev) x =
  xorb (Js.array_includes prev x) (String.eqb i x).
Proof.
  change (Tree.toggleNode i prev) with (toggle i (Js.spread_set prev)).
  rewrite toggle_includes. f_equal.
  apply array_includes_ext. intros y. apply spread_set_In.
Qed.

(** X22: a click on a tree node.  The node is passed to [onSelect], once,
    whether it has children or not; the expanded set changes only for a
    node with at least one child, whose membership is flipped while every
    other id keeps its own; the set never holds an id twice. *)
Theorem tree_click (hasOnSelect : bool) (node : Tree.TreeNode)
  (expandedNodes : list string) :
  let next := fst (Tree.handleClick hasOnSelect node expandedNodes) in
  snd (Tree.handleClick hasOnSelect node expandedNodes) =
  (if hasOnSelect then [node] else []) /\
  (forall x, Js.array_includes next x =
             xorb (Js.array_includes expandedNodes x)
                  (Tree.hasChildren node && String.eqb (Tree.id node) x)) /\
  (NoDup expandedNodes -> NoDup next).
Proof.
  cbn zeta. unfold Tree.handleClick. cbn [fst snd]. split; [reflexivity|].
  destruct (Tree.hasChildren node); cbn [andb]; split.
  - intros x. apply toggleNode_includes.
  - intros _. change (NoDup (toggle (Tree.id node) (Js.spread_set expandedNodes))).
    apply toggle_NoDup, fold_set_add_NoDup. constructor.
  - intros x. now rewrite xorb_false_r.
  - trivial.
Qed.

(** X23: what is expanded at the start.  The initial expanded set holds
    exactly the ids of the nodes at the top level of the data that are
    marked [defaultExpanded], each once; the mark on a node further down
    is not looked at. *)
Theorem tree_initial_expanded (data : list Tree.TreeNode) :
  NoDup (Tree.initialExpanded data) /\
  forall x, In x (Tree.initialExpanded data) <->
            exists node, In node data /\
                         Tree.defaultExpanded node = Some true /\
                         Tree.id node = x.
Proof.
  unfold Tree.initialExpanded. split.
  - apply fold_set_add_NoDup. constructor.
  - intros x. rewrite spread_set_In, in_map_iff. split.
    + intros (node & <- & H). apply filter_In in H as [Hin Hs].
      exists node. repeat split; [assumption|].
      unfold Tree.startsExpanded in Hs.
      now destruct (Tree.defaultExpanded node) as [[|]|].
    + intros (node & Hin & Hd & <-). exists node. split; [reflexivity|].
      apply filter_In. split; [assumption|].
      unfold Tree.startsExpanded. now rewrite Hd.
Qed.
